(** * ReachInbox mailbox synchronisation engine: a shallow embedding

    The definitions below follow [backend/src/services/EmailSyncService.ts],
    [AICategorizationService.ts], [SlackNotificationService.ts] and
    [WebhookIntegrationService.ts].

    Conventions of the embedding.
    - A JavaScript string is a [string] whose characters are the code units
      U+0000..U+00FF (Latin-1); [toLowerCase], [trim] and the UTF-8
      encoding fed to the hash are written out for that range.
    - The index store (Elasticsearch, index [emails]) is a finite map from
      document id to document.
    - Every call that leaves the process (index store, classifier, notifiers,
      mailbox client) appends an event to a trace; whether such a call fails
      is an input of the model (an outcome record), so that every theorem
      quantifies over the behaviour of the collaborators.
    - [async] functions are functions from a world to a result and a world;
      a rejected promise is the [Throw] result. *)

From Stdlib Require Import ZArith List Ascii String Bool Lia.
From stdpp Require Import gmap strings list.
From stdpp Require Import pretty.

Local Open Scope string_scope.

(* ===================================================================== *)
(** ** JavaScript string primitives used by the service *)
(* ===================================================================== *)

Module JsString.

(** [String.prototype.toLowerCase] on one Latin-1 code unit: [A-Z] and
    U+00C0..U+00DE (except the multiplication sign U+00D7) move by 32. *)
Definition toLowerChar (c : ascii) : ascii :=
  let n := N_of_ascii c in
  if ((65 <=? n)%N && (n <=? 90)%N)
     || ((192 <=? n)%N && (n <=? 222)%N && negb (n =? 215)%N)
  then ascii_of_N (n + 32)
  else c.

Fixpoint toLowerCase (s : string) : string :=
  match s with
  | EmptyString => EmptyString
  | String c r => String (toLowerChar c) (toLowerCase r)
  end.

(** [s.startsWith(p)] *)
Fixpoint startsWith (s p : string) : bool :=
  match p, s with
  | EmptyString, _ => true
  | String _ _, EmptyString => false
  | String a p', String b s' => if Ascii.eqb a b then startsWith s' p' else false
  end.

(** [s.includes(needle)]: [needle] occurs in [s] as a contiguous run. *)
Fixpoint includes (s needle : string) : bool :=
  startsWith s needle
  || match s with
     | EmptyString => false
     | String _ r => includes r needle
     end.

(** WhiteSpace and LineTerminator code units below 256:
    TAB, LF, VT, FF, CR, SPACE and NBSP. *)
Definition isWhiteSpace (c : ascii) : bool :=
  let n := N_of_ascii c in
  ((9 <=? n)%N && (n <=? 13)%N) || (n =? 32)%N || (n =? 160)%N.

Fixpoint trimStart (s : string) : string :=
  match s with
  | EmptyString => EmptyString
  | String c r => if isWhiteSpace c then trimStart r else s
  end.

Fixpoint trimEnd (s : string) : string :=
  match s with
  | EmptyString => EmptyString
  | String c r =>
      match trimEnd r with
      | EmptyString => if isWhiteSpace c then EmptyString else String c EmptyString
      | r' => String c r'
      end
  end.

(** [s.trim()] *)
Definition trim (s : string) : string := trimEnd (trimStart s).

(** [s.replace(/[<>]/g, '')]: every [<] and every [>] is deleted. *)
Fixpoint removeAngleBrackets (s : string) : string :=
  match s with
  | EmptyString => EmptyString
  | String c r =>
      if Ascii.eqb c "<"%char || Ascii.eqb c ">"%char
      then removeAngleBrackets r
      else String c (removeAngleBrackets r)
  end.

(** [xs.join(sep)] *)
Fixpoint join (sep : string) (xs : list string) : string :=
  match xs with
  | [] => ""
  | [x] => x
  | x :: rest => x ++ sep ++ join sep rest
  end.

(** The UTF-8 bytes of a string whose code units are below 256. *)
Definition utf8_char (c : ascii) : list Z :=
  let n := Z.of_N (N_of_ascii c) in
  if (n <? 128)%Z then [n]
  else [Z.lor 192 (Z.shiftr n 6); Z.lor 128 (Z.land n 63)].

Fixpoint utf8 (s : string) : list Z :=
  match s with
  | EmptyString => []
  | String c r => utf8_char c ++ utf8 r
  end.

End JsString.

(* ===================================================================== *)
(** ** SHA-1, as [crypto.createHash('sha1')] computes it *)
(* ===================================================================== *)

Module Sha1.
Local Open Scope Z_scope.

Definition w32 (x : Z) : Z := x mod 2 ^ 32.

Definition rotl (n x : Z) : Z :=
  w32 (Z.lor (Z.shiftl x n) (Z.shiftr x (32 - n))).

Definition not32 (x : Z) : Z := Z.lxor x 4294967295.

(** big-endian bytes of the low [8 * n] bits of [x] *)
Fixpoint be_bytes (n : nat) (x : Z) : list Z :=
  match n with
  | O => []
  | S n' => (Z.shiftr x (8 * Z.of_nat n')) mod 256 :: be_bytes n' x
  end.

Definition pad (msg : list Z) : list Z :=
  let l := Z.of_nat (length msg) in
  msg ++ [128] ++ repeat 0 (Z.to_nat ((55 - l) mod 64)) ++ be_bytes 8 (8 * l).

Fixpoint be_words (bs : list Z) : list Z :=
  match bs with
  | a :: b :: c :: d :: rest =>
      (Z.shiftl a 24 + Z.shiftl b 16 + Z.shiftl c 8 + d) :: be_words rest
  | _ => []
  end.

(** The message schedule, most recent word first while it is extended. *)
Fixpoint extend (n : nat) (rw : list Z) : list Z :=
  match n with
  | O => rw
  | S n' =>
      let x := Z.lxor (Z.lxor (nth 2 rw 0) (nth 7 rw 0))
                      (Z.lxor (nth 13 rw 0) (nth 15 rw 0)) in
      extend n' (rotl 1 x :: rw)
  end.

Definition schedule (block : list Z) : list Z :=
  rev (extend 64 (rev block)).

Record regs := Regs { ra : Z; rb : Z; rc : Z; rd : Z; re : Z }.

Definition round_f (i : nat) (b c d : Z) : Z :=
  if (i <? 20)%nat then Z.lor (Z.land b c) (Z.land (not32 b) d)
  else if (i <? 40)%nat then Z.lxor (Z.lxor b c) d
  else if (i <? 60)%nat then Z.lor (Z.lor (Z.land b c) (Z.land b d)) (Z.land c d)
  else Z.lxor (Z.lxor b c) d.

Definition round_k (i : nat) : Z :=
  if (i <? 20)%nat then 1518500249
  else if (i <? 40)%nat then 1859775393
  else if (i <? 60)%nat then 2400959708
  else 3395469782.

Definition round (i : nat) (w : Z) (r : regs) : regs :=
  let t := w32 (rotl 5 (ra r) + round_f i (rb r) (rc r) (rd r) + re r + round_k i + w) in
  Regs t (ra r) (rotl 30 (rb r)) (rc r) (rd r).

Fixpoint rounds (i : nat) (ws : list Z) (r : regs) : regs :=
  match ws with
  | [] => r
  | w :: ws' => rounds (S i) ws' (round i w r)
  end.

Definition compress (h : regs) (block : list Z) : regs :=
  let r := rounds 0 (schedule block) h in
  Regs (w32 (ra h + ra r)) (w32 (rb h + rb r)) (w32 (rc h + rc r))
       (w32 (rd h + rd r)) (w32 (re h + re r)).

(** 16-word blocks of the padded message, one per unit of [fuel]. *)
Fixpoint blocks (fuel : nat) (ws : list Z) (h : regs) : regs :=
  match fuel with
  | O => h
  | S fuel' =>
      match ws with
      | [] => h
      | _ => blocks fuel' (skipn 16 ws) (compress h (firstn 16 ws))
      end
  end.

Definition init : regs :=
  Regs 1732584193 4023233417 2562383102 271733878 3285377520.

Definition digest (msg : list Z) : list Z :=
  let ws := be_words (pad msg) in
  let r := blocks (length ws) ws init in
  be_bytes 4 (ra r) ++ be_bytes 4 (rb r) ++ be_bytes 4 (rc r)
  ++ be_bytes 4 (rd r) ++ be_bytes 4 (re r).

Definition hex_digit (n : Z) : ascii :=
  if n <? 10 then ascii_of_N (Z.to_N (48 + n)) else ascii_of_N (Z.to_N (87 + n)).

(** [.digest('hex')]: two lower-case hexadecimal digits per byte. *)
Fixpoint hex (bs : list Z) : string :=
  match bs with
  | [] => EmptyString
  | b :: rest => String (hex_digit (b / 16)) (String (hex_digit (b mod 16)) (hex rest))
  end.

Definition sha1_hex (s : string) : string := hex (digest (JsString.utf8 s)).

End Sha1.


(* ===================================================================== *)
(** ** Data model *)
(* ===================================================================== *)

(** [types/EmailAccount.ts] *)
Module Account.
Record t := Make {
  id : string;
  host : string;
  port : Z;
  username : string;
  password : string;
  tls : bool }.
End Account.

(** [MailboxInfo]; [specialUse] is an optional property. *)
Module Mailbox.
Record t := Make {
  name : string;
  path : string;
  flags : list string;
  specialUse : option string }.
End Mailbox.

(** What [client.list()] yields for one folder: [flags] is a set that may
    be absent ([folder.flags || []]). *)
Module Listed.
Record t := Make {
  name : string;
  path : string;
  flags : option (list string) }.
End Listed.

(** The part of imapflow's [FetchMessageObject] that the service reads.
    Every property is optional ([msg.envelope?.messageId] and so on);
    a date is a number of milliseconds. *)
Module Msg.
Record address := Address { addr : option string }.
Record envelope := Envelope {
  messageId : option string;
  subject : option string;
  from : option (list address);
  to : option (list address);
  date : option Z }.
Record t := Make {
  env : option envelope;
  source : option string }.
End Msg.

(** The document written to the [emails] index. [None] is JavaScript's
    [null] for the two AI fields and [undefined] for [folderType]. *)
Module Doc.
Record t := Make {
  id : string;
  messageId : string;
  subject : string;
  from : string;
  to : string;
  date : Z;
  account : string;
  folder : string;
  folderType : option string;
  raw : string;
  aiCategory : option string;
  aiConfidence : option Z }.
End Doc.

(** A thrown value; [statusCode] is [error.meta.statusCode] when present. *)
Record JsError := MkError { statusCode : option Z; message : string }.

(** Calls that leave the process, in the order they are made. *)
Inductive Event :=
| EsGet (id : string)
| EsIndex (id : string) (doc : Doc.t)
| GeminiPost (subject body : string)
| SlackSend (subject from account : string)
| WebhookPost (subject from account : string)
| ImapConnect (account : string)
| ImapList
| GetMailboxLock (path : string)
| LockRelease (path : string)
| FetchSince (path : string)
| FetchUid (path : string) (uid : Z)
| ImapStatus (path : string)
| Sleep (ms : Z)
| ReconnectIn (ms : Z) (account : string).

(** A handler registered with [client.on('exists', ...)]: the closure of
    [setupRealtimeMonitoring] over its own parameters. [running] is the
    location of the parameter [running] of that call. *)
Record ExistsHandler := MkExists {
  eh_account : Account.t;
  eh_folder : Mailbox.t;
  eh_running : nat }.

(** A handler registered with [client.on('close', ...)]: the closure of
    [setupConnectionMaintenance]; [ch_running] is the location of that
    call's parameter [running]. *)
Record CloseHandler := MkClose {
  ch_account : Account.t;
  ch_running : nat }.

(** An [ImapFlow] client: the listeners attached to it. *)
Record ImapClient := MkClient {
  on_exists : list ExistsHandler;
  on_close : list CloseHandler }.

(** The state the service runs in.
    - [store]: the [emails] index;
    - [trace]: the external calls made so far, oldest first;
    - [held]: mailbox locks acquired and not yet released;
    - [vars]: the boolean variable bindings created so far (each [let] and
      each parameter is a binding of its own, as in JavaScript: passing a
      boolean to a function copies its value into a fresh binding);
    - [clients], [folderCache]: the two maps of [EmailSyncService]. *)
Record World := MkWorld {
  store : gmap string Doc.t;
  trace : list Event;
  held : list string;
  vars : list bool;
  clients : gmap string ImapClient;
  folderCache : gmap string (list Mailbox.t) }.

Definition set_store (f : gmap string Doc.t -> gmap string Doc.t) (w : World) : World :=
  MkWorld (f (store w)) (trace w) (held w) (vars w) (clients w) (folderCache w).
Definition set_trace (f : list Event -> list Event) (w : World) : World :=
  MkWorld (store w) (f (trace w)) (held w) (vars w) (clients w) (folderCache w).
Definition set_held (f : list string -> list string) (w : World) : World :=
  MkWorld (store w) (trace w) (f (held w)) (vars w) (clients w) (folderCache w).
Definition set_vars (f : list bool -> list bool) (w : World) : World :=
  MkWorld (store w) (trace w) (held w) (f (vars w)) (clients w) (folderCache w).
Definition set_clients (f : gmap string ImapClient -> gmap string ImapClient) (w : World) : World :=
  MkWorld (store w) (trace w) (held w) (vars w) (f (clients w)) (folderCache w).
Definition set_folderCache (f : gmap string (list Mailbox.t) -> gmap string (list Mailbox.t))
    (w : World) : World :=
  MkWorld (store w) (trace w) (held w) (vars w) (clients w) (f (folderCache w)).

Definition emptyWorld : World := MkWorld ∅ [] [] [] ∅ ∅.

(** Append one external call to the trace. *)
Definition record (e : Event) (w : World) : World :=
  set_trace (fun t => (t ++ [e])%list) w.

(* ===================================================================== *)
(** ** Promises: state passing with exceptions *)
(* ===================================================================== *)

Inductive Completion (A : Type) :=
| Return (a : A)
| Throw (e : JsError).
Arguments Return {A} a.
Arguments Throw {A} e.

(** An [async] computation: from a world to its completion and the world
    it leaves. *)
Definition Async (A : Type) : Type := World -> Completion A * World.

Definition ret {A} (a : A) : Async A := fun w => (Return a, w).
Definition throw {A} (e : JsError) : Async A := fun w => (Throw e, w).

Definition bind {A B} (m : Async A) (k : A -> Async B) : Async B :=
  fun w =>
    match m w with
    | (Return a, w') => k a w'
    | (Throw e, w') => (Throw e, w')
    end.

(** [try { m } catch (e) { h e }] *)
Definition try_catch {A} (m : Async A) (h : JsError -> Async A) : Async A :=
  fun w =>
    match m w with
    | (Return a, w') => (Return a, w')
    | (Throw e, w') => h e w'
    end.

(** [try { m } finally { f }], for a [finally] block that completes
    normally: the completion of [m] is kept. *)
Definition try_finally {A} (m : Async A) (f : World -> World) : Async A :=
  fun w => let (r, w') := m w in (r, f w').

Definition emit (e : Event) : Async unit :=
  fun w => (Return tt, record e w).

(** An external call that either succeeds with [tt] or rejects. *)
Definition call (e : Event) (fault : option JsError) : Async unit :=
  fun w =>
    let w' := record e w in
    match fault with
    | Some err => (Throw err, w')
    | None => (Return tt, w')
    end.

Declare Scope async_scope.
Delimit Scope async_scope with async.
Notation "'let!' x := m 'in' k" := (bind m (fun x => k))
  (at level 10, x name, m at level 100, k at level 200) : async_scope.
Notation "m ;; k" := (bind m (fun _ => k))
  (at level 100, k at level 200, right associativity) : async_scope.
Local Open Scope async_scope.

(** The completion of [m] as a value: the [try] of an early [return]. *)
Definition attempt {A} (m : Async A) : Async (Completion A) :=
  fun w => let (r, w') := m w in (Return r, w').

(* ===================================================================== *)
(** ** The collaborators *)
(* ===================================================================== *)

(** The error the Elasticsearch client raises when the id is absent. *)
Definition notFound : JsError := MkError (Some 404%Z) "ResponseError".

(** [esClient.get({index: 'emails', id})]. [fault] is an error raised
    for a reason of the store's own (unreachable, overloaded, ...). *)
Definition es_get (fault : option JsError) (id : string) : Async Doc.t :=
  fun w =>
    let w' := record (EsGet id) w in
    match fault with
    | Some err => (Throw err, w')
    | None =>
        match store w !! id with
        | Some d => (Return d, w')
        | None => (Throw notFound, w')
        end
    end.

(** [esClient.index({index: 'emails', id, document})]: create or overwrite. *)
Definition es_index (fault : option JsError) (id : string) (doc : Doc.t) : Async unit :=
  fun w =>
    let w' := record (EsIndex id doc) w in
    match fault with
    | Some err => (Throw err, w')
    | None => (Return tt, set_store (fun s => <[id := doc]> s) w')
    end.

(** What the POST to the Gemini endpoint comes back with:
    the request fails; or a response whose
    [data?.candidates?.[0]?.content?.parts?.[0]?.text] is a string or is
    absent; or a response in which that property is not a string. *)
Inductive GeminiReply :=
| PostFails (e : JsError)
| ReplyText (text : option string)
| ReplyNotText.

(* ===================================================================== *)
(** ** [AICategorizationService.categorizeEmail] *)
(* ===================================================================== *)

Definition LABELS : list string :=
  ["Interested"; "Meeting Booked"; "Not Interested"; "Spam"; "Out of Office"].

(** [labelRaw.trim()] on a value that is not a string. *)
Definition typeError : JsError := MkError None "TypeError".

(** The body of the [try] block: the POST, then the label lookup. *)
Definition categorizeEmail_try (reply : GeminiReply) (subject body : string) : Async string :=
  emit (GeminiPost subject body) ;;
  match reply with
  | PostFails e => throw e
  | ReplyNotText => throw typeError
  | ReplyText text =>
      let labelRaw := default "" text in
      let wanted := JsString.toLowerCase (JsString.trim labelRaw) in
      let labelNorm :=
        default "Out of Office"
          (find (fun l => String.eqb (JsString.toLowerCase l) wanted) LABELS) in
      ret labelNorm
  end.

Definition categorizeEmail (reply : GeminiReply) (subject body : string) : Async string :=
  try_catch (categorizeEmail_try reply subject body) (fun _ => ret "Spam").

(* ===================================================================== *)
(** ** The notifiers *)
(* ===================================================================== *)

(** [SlackNotificationService.sendInterestedEmailNotification]: the
    rejection of [webhook.send] is not caught here. *)
Definition sendInterestedEmailNotification (fault : option JsError)
    (subject from account : string) : Async unit :=
  call (SlackSend subject from account) fault.

(** [WebhookIntegrationService.triggerInterestedEmailWebhook]: the
    rejection of [axios.post] is caught and logged. *)
Definition triggerInterestedEmailWebhook (fault : option JsError)
    (subject from account : string) : Async unit :=
  try_catch (call (WebhookPost subject from account) fault) (fun _ => ret tt).

(* ===================================================================== *)
(** ** [EmailSyncService.handleEmail] *)
(* ===================================================================== *)

(** How the collaborators answer during one run of the pipeline. *)
Record Outcomes := MkOutcomes {
  get_fault : option JsError;
  gemini : GeminiReply;
  now : Z;
  index_fault : option JsError;
  slack_fault : option JsError;
  webhook_fault : option JsError }.

(** Line 250: [messageIdRaw.replace(/[<>]/g, '').trim()] *)
Definition messageIdClean (messageIdRaw : string) : string :=
  JsString.trim (JsString.removeAngleBrackets messageIdRaw).

(** Lines 250-251: the document id derived from the raw message id. *)
Definition fingerprint (messageIdRaw : string) : string :=
  Sha1.sha1_hex (messageIdClean messageIdRaw).

(** [error?.meta?.statusCode !== 404], negated *)
Definition is404 (error : JsError) : bool :=
  match statusCode error with
  | Some c => (c =? 404)%Z
  | None => false
  end.

(** [xs?.map(f => f.address).join(', ') || ''] *)
Definition addresses (xs : option (list Msg.address)) : string :=
  match xs with
  | None => ""
  | Some l => JsString.join ", " (map (fun f => default "" (Msg.addr f)) l)
  end.

(** [msg.envelope?.p] for an optional property [p] of the envelope *)
Definition envelope_get {A} (p : Msg.envelope -> option A) (msg : Msg.t) : option A :=
  match Msg.env msg with
  | Some e => p e
  | None => None
  end.

(** Lines 273-289: the document that is indexed. *)
Definition emailDoc (o : Outcomes) (account : Account.t) (msg : Msg.t)
    (folder : Mailbox.t) (messageIdRaw : string) : Doc.t :=
  {| Doc.id := fingerprint messageIdRaw;
     Doc.messageId := messageIdClean messageIdRaw;
     Doc.subject := default "" (envelope_get Msg.subject msg);
     Doc.from := addresses (envelope_get Msg.from msg);
     Doc.to := addresses (envelope_get Msg.to msg);
     Doc.date := default (now o) (envelope_get Msg.date msg);
     Doc.account := Account.id account;
     Doc.folder := Mailbox.name folder;
     Doc.folderType := Mailbox.specialUse folder;
     Doc.raw := default "" (Msg.source msg);
     Doc.aiCategory := None;
     Doc.aiConfidence := None |}.

(** Lines 298-316: the notification block. *)
Definition notifyInterested (o : Outcomes) (aiCategory subject from account : string)
    : Async unit :=
  try_catch
    (if String.eqb aiCategory "Interested" then
       sendInterestedEmailNotification (slack_fault o) subject from account ;;
       triggerInterestedEmailWebhook (webhook_fault o) subject from account
     else ret tt)
    (fun _ => ret tt).

(** Lines 266-316: what [handleEmail] does once the document is known to
    be absent. *)
Definition indexAndNotify (o : Outcomes) (account : Account.t) (msg : Msg.t)
    (folder : Mailbox.t) (messageIdRaw : string) : Async unit :=
  let subject := default "" (envelope_get Msg.subject msg) in
  let raw := default "" (Msg.source msg) in
  let! aiCategory := categorizeEmail (gemini o) subject raw in
  let doc := emailDoc o account msg folder messageIdRaw in
  es_index (index_fault o) (fingerprint messageIdRaw) doc ;;
  notifyInterested o aiCategory subject
    (addresses (envelope_get Msg.from msg)) (Account.id account).

Definition handleEmail (o : Outcomes) (account : Account.t) (msg : Msg.t)
    (folder : Mailbox.t) : Async unit :=
  match envelope_get Msg.messageId msg with
  | None => ret tt
  | Some "" => ret tt
  | Some messageIdRaw =>
      let messageId := fingerprint messageIdRaw in
      let! found := attempt (es_get (get_fault o) messageId) in
      match found with
      | Return _ => ret tt
      | Throw error =>
          if negb (is404 error) then throw error
          else indexAndNotify o account msg folder messageIdRaw
      end
  end.

(* ===================================================================== *)
(** ** [EmailSyncService.determineSpecialUse] *)
(* ===================================================================== *)

(** [flags.includes(x)] on an array of strings *)
Definition hasFlag (flags : list string) (x : string) : bool :=
  existsb (String.eqb x) flags.

(** [flags] has type [string[]], which is never falsy, so the guard
    [if (flags)] is always taken. *)
Definition determineSpecialUse (folderName : string) (flags : list string) : string :=
  let lowerName := JsString.toLowerCase folderName in
  if JsString.includes lowerName "inbox" then "inbox"
  else if JsString.includes lowerName "sent" || JsString.includes lowerName "sent mail"
  then "sent"
  else if JsString.includes lowerName "draft" then "drafts"
  else if JsString.includes lowerName "spam" || JsString.includes lowerName "junk"
  then "spam"
  else if JsString.includes lowerName "trash" || JsString.includes lowerName "bin"
  then "trash"
  else if JsString.includes lowerName "important" then "important"
  else if JsString.includes lowerName "starred" then "starred"
  else if JsString.includes lowerName "all mail" then "archive"
  else if hasFlag flags "\Inbox" then "inbox"
  else if hasFlag flags "\Sent" then "sent"
  else if hasFlag flags "\Drafts" then "drafts"
  else if hasFlag flags "\Junk" || hasFlag flags "\Spam" then "spam"
  else if hasFlag flags "\Trash" then "trash"
  else if hasFlag flags "\Important" then "important"
  else if hasFlag flags "\All" then "archive"
  else "custom".

(* ===================================================================== *)
(** ** [EmailSyncService.getAllFolders] *)
(* ===================================================================== *)

(** [client.list()] *)
Definition client_list (result : JsError + list Listed.t) : Async (list Listed.t) :=
  fun w =>
    let w' := record ImapList w in
    match result with
    | inl err => (Throw err, w')
    | inr folders => (Return folders, w')
    end.

Definition folderInfo (folder : Listed.t) : Mailbox.t :=
  {| Mailbox.name := Listed.name folder;
     Mailbox.path := Listed.path folder;
     Mailbox.flags := default [] (Listed.flags folder);
     Mailbox.specialUse :=
       Some (determineSpecialUse (Listed.name folder) (default [] (Listed.flags folder))) |}.

(** Line 138: the entry returned when listing fails; it has no
    [specialUse] property. *)
Definition fallbackInbox : Mailbox.t :=
  {| Mailbox.name := "INBOX"; Mailbox.path := "INBOX";
     Mailbox.flags := []; Mailbox.specialUse := None |}.

Definition getAllFolders (result : JsError + list Listed.t) (account : Account.t)
    : Async (list Mailbox.t) :=
  try_catch
    (let! folders := client_list result in
     let processedFolders := map folderInfo folders in
     fun w =>
       (Return processedFolders,
        set_folderCache (fun c => <[Account.id account := processedFolders]> c) w))
    (fun _ => ret [fallbackInbox]).

(* ===================================================================== *)
(** ** [EmailSyncService.processFolderEmails] *)
(* ===================================================================== *)

(** How the mailbox client answers while one folder is processed:
    whether the lock is granted, the messages the fetch yields (each with
    the outcomes of its own pipeline) and whether the fetch then fails. *)
Record FolderOutcomes := MkFolderOutcomes {
  lock_fault : option JsError;
  fetched : list (Msg.t * Outcomes);
  fetch_fault : option JsError }.

(** [client.getMailboxLock(path)] *)
Definition getMailboxLock (fault : option JsError) (path : string) : Async unit :=
  fun w =>
    let w' := record (GetMailboxLock path) w in
    match fault with
    | Some err => (Throw err, w')
    | None => (Return tt, set_held (cons path) w')
    end.

Fixpoint remove_first (path : string) (l : list string) : list string :=
  match l with
  | [] => []
  | p :: rest => if String.eqb path p then rest else p :: remove_first path rest
  end.

(** [lock.release()] *)
Definition release (path : string) (w : World) : World :=
  set_held (remove_first path) (record (LockRelease path) w).

(** Lines 179-187: the [for await] loop with its counter. *)
Fixpoint backfillLoop (account : Account.t) (folder : Mailbox.t)
    (msgs : list (Msg.t * Outcomes)) (fault : option JsError) (fetchedCount : Z)
    : Async Z :=
  match msgs with
  | [] =>
      match fault with
      | Some err => throw err
      | None => ret fetchedCount
      end
  | (msg, o) :: rest =>
      handleEmail o account msg folder ;;
      let fetchedCount := (fetchedCount + 1)%Z in
      (if (fetchedCount mod 25 =? 0)%Z then emit (Sleep 10) else ret tt) ;;
      backfillLoop account folder rest fault fetchedCount
  end.

Definition processFolderEmails (fo : FolderOutcomes) (account : Account.t)
    (folder : Mailbox.t) : Async unit :=
  try_catch
    (getMailboxLock (lock_fault fo) (Mailbox.path folder) ;;
     try_finally
       (emit (FetchSince (Mailbox.path folder)) ;;
        backfillLoop account folder (fetched fo) (fetch_fault fo) 0 ;;
        ret tt)
       (release (Mailbox.path folder)))
    (fun _ => ret tt).

(* ===================================================================== *)
(** ** Variable bindings *)
(* ===================================================================== *)

(** A new binding initialised with [v]; its location is returned. *)
Definition alloc (v : bool) : Async nat :=
  fun w => (Return (length (vars w)), set_vars (fun vs => (vs ++ [v])%list) w).

Definition read_var (l : nat) : Async bool :=
  fun w => (Return (default false (vars w !! l)), w).

Definition write_var (l : nat) (v : bool) : Async unit :=
  fun w => (Return tt, set_vars (fun vs => <[l := v]> vs) w).

(* ===================================================================== *)
(** ** [setupRealtimeMonitoring] and [setupConnectionMaintenance] *)
(* ===================================================================== *)

(** The call binds its parameter [running] to the value it is given and
    attaches a listener that closes over that binding. *)
Definition setupRealtimeMonitoring (client : ImapClient) (account : Account.t)
    (folder : Mailbox.t) (running : bool) : Async ImapClient :=
  let! l := alloc running in
  ret (MkClient (on_exists client ++ [MkExists account folder l])%list (on_close client)).

(** How the client answers while one [exists] event is handled. *)
Record ExistsOutcomes := MkExistsOutcomes {
  ex_lock_fault : option JsError;
  ex_status : JsError + option Z;
  ex_fetched : list (Msg.t * Outcomes);
  ex_fetch_fault : option JsError }.

(** [client.status(path, {uidNext: true})]; the result is [uidNext] when
    it is a number. *)
Definition client_status (result : JsError + option Z) (path : string) : Async (option Z) :=
  fun w =>
    let w' := record (ImapStatus path) w in
    match result with
    | inl err => (Throw err, w')
    | inr uidNext => (Return uidNext, w')
    end.

(** Lines 210-212: the [for await] loop of the listener. *)
Fixpoint liveLoop (account : Account.t) (folder : Mailbox.t)
    (msgs : list (Msg.t * Outcomes)) (fault : option JsError) : Async unit :=
  match msgs with
  | [] =>
      match fault with
      | Some err => throw err
      | None => ret tt
      end
  | (msg, o) :: rest =>
      handleEmail o account msg folder ;;
      liveLoop account folder rest fault
  end.

(** Lines 199-216: the listener for [exists]. *)
Definition existsHandler (h : ExistsHandler) (xo : ExistsOutcomes) : Async unit :=
  let! running := read_var (eh_running h) in
  if negb running then ret tt
  else
    let path := Mailbox.path (eh_folder h) in
    getMailboxLock (ex_lock_fault xo) path ;;
    try_finally
      (let! uidNext := client_status (ex_status xo) path in
       match uidNext with
       | None => ret tt
       | Some uidNext =>
           let latestUid := (uidNext - 1)%Z in
           if (latestUid =? 0)%Z then ret tt
           else
             emit (FetchUid path latestUid) ;;
             liveLoop (eh_account h) (eh_folder h) (ex_fetched xo) (ex_fetch_fault xo)
       end)
      (release path).

(** Lines 220-224: the listener for [close]. The timer it starts calls
    [connectAndSync] for the same account after ten seconds. *)
Definition closeHandler (h : CloseHandler) : Async unit :=
  write_var (ch_running h) false ;;
  emit (ReconnectIn 10000 (Account.id (ch_account h))).

(** The call binds its parameter [running] and attaches the [close]
    listener, which closes over that binding. The keep-alive task it
    starts reads the same binding; its first action is a five-minute
    wait, and it is not part of this model. *)
Definition setupConnectionMaintenance (client : ImapClient) (account : Account.t)
    (running : bool) : Async ImapClient :=
  let! l := alloc running in
  ret (MkClient (on_exists client) (on_close client ++ [MkClose account l])%list).

(* ===================================================================== *)
(** ** [EmailSyncService.connectAndSync] *)
(* ===================================================================== *)

(** How the mailbox server answers during one [connectAndSync]: the
    connection attempt, the folder listing, and the outcomes for the
    folder processed at each position of the loop. *)
Record SyncOutcomes := MkSyncOutcomes {
  connect_fault : option JsError;
  list_result : JsError + list Listed.t;
  folder_outcomes : nat -> FolderOutcomes }.

(** Lines 97-109; [running] is the location of [let running = true],
    [i] the position in the list of folders. *)
Fixpoint folderLoop (so : SyncOutcomes) (account : Account.t) (running : nat)
    (i : nat) (folders : list Mailbox.t) (client : ImapClient) : Async ImapClient :=
  match folders with
  | [] => ret client
  | folder :: rest =>
      let! client' :=
        try_catch
          (processFolderEmails (folder_outcomes so i) account folder ;;
           if String.eqb (Mailbox.name folder) "INBOX" then
             let! r := read_var running in
             setupRealtimeMonitoring client account folder r
           else ret client)
          (fun _ => ret client) in
      folderLoop so account running (S i) rest client'
  end.

Definition connectAndSync (so : SyncOutcomes) (account : Account.t) : Async unit :=
  call (ImapConnect (Account.id account)) (connect_fault so) ;;
  let! folders := getAllFolders (list_result so) account in
  let! running := alloc true in
  let! client := folderLoop so account running 0 folders (MkClient [] []) in
  let! r := read_var running in
  let! client := setupConnectionMaintenance client account r in
  fun w => (Return tt, set_clients (fun c => <[Account.id account := client]> c) w).

(* ===================================================================== *)
(** ** The folder classifier as the specification words it *)
(* ===================================================================== *)

(** The ordered name keywords with the tag each one gives. *)
Definition nameKeywords : list (string * string) :=
  [("inbox", "inbox"); ("sent", "sent"); ("draft", "drafts");
   ("spam", "spam"); ("junk", "spam"); ("trash", "trash"); ("bin", "trash");
   ("important", "important"); ("starred", "starred"); ("all mail", "archive")].

(** The ordered protocol flags with the tag each one gives. *)
Definition flagTags : list (string * string) :=
  [("\Inbox", "inbox"); ("\Sent", "sent"); ("\Drafts", "drafts");
   ("\Junk", "spam"); ("\Spam", "spam"); ("\Trash", "trash");
   ("\Important", "important"); ("\All", "archive")].

(** The tag of the first entry of [table] whose key satisfies [p]. *)
Definition firstMatch (p : string -> bool) (table : list (string * string)) : option string :=
  option_map snd (find (fun kv => p (fst kv)) table).

(** [kw] occurs in [name] when letter case is ignored. *)
Definition occursIgnoringCase (kw name : string) : Prop :=
  exists pre mid post,
    name = pre ++ mid ++ post /\ JsString.toLowerCase mid = JsString.toLowerCase kw.

(** First name keyword, else first flag, else [custom]. *)
Definition specialUse_spec (folderName : string) (flags : list string) : string :=
  match firstMatch (JsString.includes (JsString.toLowerCase folderName)) nameKeywords with
  | Some tag => tag
  | None =>
      match firstMatch (hasFlag flags) flagTags with
      | Some tag => tag
      | None => "custom"
      end
  end.

(** No name keyword occurs in the folder name. *)
Definition unrecognizedName (folderName : string) : bool :=
  forallb (fun kv => negb (JsString.includes (JsString.toLowerCase folderName) (fst kv)))
    nameKeywords.

(* ===================================================================== *)
(** ** Observations on strings, traces and stores *)
(* ===================================================================== *)

Definition firstChar (s : string) : option ascii :=
  match s with
  | EmptyString => None
  | String c _ => Some c
  end.

Fixpoint lastChar (s : string) : option ascii :=
  match s with
  | EmptyString => None
  | String c EmptyString => Some c
  | String _ r => lastChar r
  end.

(** [c] is one of the characters of [s]. *)
Fixpoint occurs (c : ascii) (s : string) : bool :=
  match s with
  | EmptyString => false
  | String d r => Ascii.eqb c d || occurs c r
  end.

(** The label [categorizeEmail] resolves to, as a function of what the
    classification service answers. *)
Definition resolvedLabel (reply : GeminiReply) : string :=
  match reply with
  | PostFails _ => "Spam"
  | ReplyNotText => "Spam"
  | ReplyText text =>
      default "Out of Office"
        (find (fun l => String.eqb (JsString.toLowerCase l)
                          (JsString.toLowerCase (JsString.trim (default "" text))))
              LABELS)
  end.

(** The world the notification block leaves. *)
Definition notifiedWorld (o : Outcomes) (aiCategory subject from account : string)
    (w : World) : World :=
  if String.eqb aiCategory "Interested" then
    match slack_fault o with
    | Some _ => record (SlackSend subject from account) w
    | None => record (WebhookPost subject from account)
                (record (SlackSend subject from account) w)
    end
  else w.

Definition isWebhookPost (e : Event) : bool :=
  match e with
  | WebhookPost _ _ _ => true
  | _ => false
  end.

Definition isSlackSend (e : Event) : bool :=
  match e with
  | SlackSend _ _ _ => true
  | _ => false
  end.

(** The paths for which a mailbox lock was requested, oldest first. *)
Fixpoint lockRequests (t : list Event) : list string :=
  match t with
  | [] => []
  | GetMailboxLock p :: rest => p :: lockRequests rest
  | _ :: rest => lockRequests rest
  end.

(** The calls that are not lock traffic. *)
Definition quietEvent (e : Event) : bool :=
  match e with
  | GetMailboxLock _ | LockRelease _ => false
  | _ => true
  end.

(** The folders [connectAndSync] iterates over, given the listing. *)
Definition foldersOf (so : SyncOutcomes) : list Mailbox.t :=
  match list_result so with
  | inl _ => [fallbackInbox]
  | inr folders => map folderInfo folders
  end.

(** Locks and lock requests are as before. *)
Definition sameLocks (w w' : World) : Prop :=
  held w' = held w /\ lockRequests (trace w') = lockRequests (trace w).

(** Every document of [w'] that [w] does not already hold has no
    [folderType]. *)
Definition newDocsUntyped (w w' : World) : Prop :=
  forall id d, store w' !! id = Some d -> store w !! id = Some d \/ Doc.folderType d = None.

(** [m] relates, by [R], the world it starts in to the world it leaves. *)
Definition keeps (R : World -> World -> Prop) {A} (m : Async A) : Prop :=
  forall w, R w (snd (m w)).

(** Nothing is erased from the trace. *)
Definition traceGrows (w w' : World) : Prop :=
  forall e, In e (trace w) -> In e (trace w').

(** The folder entry has no [specialUse] property. *)
Definition noSpecialUse (folder : Mailbox.t) : Prop := Mailbox.specialUse folder = None.

(** The same outcomes with another answer of the classification service. *)
Definition with_gemini (o : Outcomes) (reply : GeminiReply) : Outcomes :=
  MkOutcomes (get_fault o) reply (now o) (index_fault o) (slack_fault o) (webhook_fault o).

(** Concrete data for the examples: the end-to-end scenario of the
    specification (account [A1], folder [INBOX], one message [<id-1>]). *)
Module Sample.
Definition account : Account.t :=
  Account.Make "A1" "imap.example.com" 993 "user" "secret" true.
Definition envelope : Msg.envelope :=
  Msg.Envelope (Some "<id-1>") (Some "Interview Invite")
    (Some [Msg.Address (Some "hr@example.com")])
    (Some [Msg.Address (Some "me@example.com")]) (Some 1700000000000%Z).
Definition message : Msg.t := Msg.Make (Some envelope) (Some "We would like to meet you").
Definition inbox : Mailbox.t := Mailbox.Make "INBOX" "INBOX" [] (Some "inbox").
Definition down : JsError := MkError (Some 503%Z) "service unavailable".
(** every collaborator answers; the classifier says [Interested] *)
Definition allGood : Outcomes :=
  MkOutcomes None (ReplyText (Some "Interested")) 1700000000500 None None None.
(** the chat notifier fails *)
Definition slackDown : Outcomes :=
  MkOutcomes None (ReplyText (Some "Interested")) 1700000000500 None (Some down) None.
(** the classification service fails *)
Definition geminiDown : Outcomes :=
  MkOutcomes None (PostFails down) 1700000000500 None None None.
(** the index store fails on the existence query *)
Definition storeDown : Outcomes :=
  MkOutcomes (Some down) (ReplyText (Some "Interested")) 1700000000500 None None None.
(** the index store fails on the write *)
Definition writeDown : Outcomes :=
  MkOutcomes None (ReplyText (Some "Spam")) 1700000000500 (Some down) None None.
(** two folders are listed; the index write fails for the message of the
    first one *)
Definition sync : SyncOutcomes :=
  MkSyncOutcomes None
    (inr [Listed.Make "INBOX" "INBOX" None;
          Listed.Make "Work" "Work" (Some ["\HasNoChildren"])])
    (fun i => match i with
              | O => MkFolderOutcomes None [(message, writeDown)] None
              | _ => MkFolderOutcomes None [(message, allGood)] None
              end).
(** a second message, and the answers of the client when it arrives *)
Definition message2 : Msg.t :=
  Msg.Make (Some (Msg.Envelope (Some "<id-2>") (Some "Re: Interview Invite") None None None))
    None.
Definition newMail : ExistsOutcomes :=
  MkExistsOutcomes None (inr (Some 42%Z)) [(message2, geminiDown)] None.
(** the world after a first synchronisation of the account *)
Definition live : World := snd (connectAndSync sync account emptyWorld).
(** the listing fails; the fetch of the fallback folder yields the message *)
Definition syncNoList : SyncOutcomes :=
  MkSyncOutcomes None (inl down)
    (fun _ => MkFolderOutcomes None [(message, allGood)] None).
End Sample.

(* ===================================================================== *)
(** ** [routes/emailRoutes.ts]: [POST /:id/categorize] *)
(* ===================================================================== *)

(** What a route answers: the status and the properties of the JSON
    object sent. *)
Module Http.
Record response := Response {
  status : Z;
  json : list (string * string) }.
End Http.

(** The document with its [aiCategory] replaced. *)
Definition with_aiCategory (d : Doc.t) (label : option string) : Doc.t :=
  {| Doc.id := Doc.id d;
     Doc.messageId := Doc.messageId d;
     Doc.subject := Doc.subject d;
     Doc.from := Doc.from d;
     Doc.to := Doc.to d;
     Doc.date := Doc.date d;
     Doc.account := Doc.account d;
     Doc.folder := Doc.folder d;
     Doc.folderType := Doc.folderType d;
     Doc.raw := Doc.raw d;
     Doc.aiCategory := label;
     Doc.aiConfidence := Doc.aiConfidence d |}.

(** [esClient.update({index: 'emails', id, doc: {aiCategory: label}})]:
    the partial document is merged into the stored one; the store answers
    404 when there is none. The call is observed through the store and
    through the answer of the route. *)
Definition es_update (fault : option JsError) (id label : string) : Async unit :=
  fun w =>
    match fault with
    | Some err => (Throw err, w)
    | None =>
        match store w !! id with
        | Some d =>
            (Return tt,
             set_store (fun s => <[id := with_aiCategory d (Some label)]> s) w)
        | None => (Throw notFound, w)
        end
    end.

(** Lines 139-162. The documents of the index carry [subject] and [raw]
    (see [emailDoc]), so [email.subject] and [email.raw] are defined. *)
Definition categorizeRoute (get_fault : option JsError) (reply : GeminiReply)
    (update_fault : option JsError) (id : string) : Async Http.response :=
  try_catch
    (let! source := es_get get_fault id in
     let subject : option string := Some (Doc.subject source) in
     let raw : option string := Some (Doc.raw source) in
     let! label :=
       match subject, raw with
       | None, None => ret "Spam"
       | _, _ => categorizeEmail reply (default "" subject) (default "" raw)
       end in
     es_update update_fault id label ;;
     ret (Http.Response 200 [("id", id); ("aiCategory", label)]))
    (fun e => ret (Http.Response 500 [("error", message e)])).

(* ===================================================================== *)
(** ** [services/RAGService.ts]: the template records *)
(* ===================================================================== *)

(** [s.split(',')]: the pieces of [s] between the occurrences of [sep];
    the empty string gives one empty piece. *)
Fixpoint splitOn (sep : ascii) (s : string) : list string :=
  match s with
  | EmptyString => [EmptyString]
  | String c r =>
      if Ascii.eqb c sep then EmptyString :: splitOn sep r
      else
        match splitOn sep r with
        | [] => [String c EmptyString]
        | piece :: pieces => String c piece :: pieces
        end
  end.

Module Rag.

(** [TrainingData] and its [metadata] *)
Record metadata := Metadata {
  type : string;
  urgency : string;
  category : string }.

Record trainingData := TrainingData {
  context : string;
  keywords : list string;
  template : string;
  meta : metadata }.

(** The object stored with a template in the vector database:
    [{...item.metadata, template, context, keywords: keywords.join(',')}]
    (lines 86-91 and 298-303). *)
Record stored := Stored {
  s_type : string;
  s_urgency : string;
  s_category : string;
  s_template : string;
  s_context : string;
  s_keywords : string }.

Definition storedOf (item : trainingData) : stored :=
  {| s_type := type (meta item);
     s_urgency := urgency (meta item);
     s_category := category (meta item);
     s_template := template item;
     s_context := context item;
     s_keywords := JsString.join "," (keywords item) |}.

(** Lines 81 and 289: [`${context} ${keywords.join(' ')}`] *)
Definition searchableText (item : trainingData) : string :=
  context item ++ " " ++ JsString.join " " (keywords item).

(** Lines 74-92 of [populateVectorDatabase]: the three arrays
    [documents], [ids] and [metadatas], filled item by item; [i] is the
    loop counter. *)
Fixpoint fillArrays (i : nat) (allData : list trainingData)
    (documents ids : list string) (metadatas : list stored)
    : list string * list string * list stored :=
  match allData with
  | [] => (documents, ids, metadatas)
  | item :: rest =>
      fillArrays (S i) rest
        (documents ++ [searchableText item])%list
        (ids ++ [("template_" ++ pretty i)%string])%list
        (metadatas ++ [storedOf item])%list
  end.

Definition templateArrays (allData : list trainingData)
    : list string * list string * list stored :=
  fillArrays 0 allData [] [] [].

(** Lines 168-175 of [generateSuggestedReply]: a query result as a
    matched template; [D] is the type of the distances the vector
    database reports. *)
Record matched (D : Type) := Matched {
  m_template : string;
  m_context : string;
  m_type : string;
  m_category : string;
  m_distance : D;
  m_keywords : list string }.
Arguments Matched {D}.
Arguments m_keywords {D}.
Arguments m_template {D}.
Arguments m_context {D}.

Definition matchedTemplate {D} (md : stored) (distance : D) : matched D :=
  {| m_template := s_template md;
     m_context := s_context md;
     m_type := s_type md;
     m_category := s_category md;
     m_distance := distance;
     m_keywords := splitOn "," (s_keywords md) |}.

(** The calls [generateEmbeddings] makes: [model.embedContent(text)] and
    the delay between batches. *)
Inductive call :=
| EmbedContent (text : string)
| Wait (ms : Z).

(** Lines 120-123: the texts of one batch, in order. [embed k text] is
    the answer to [embedContent] for the text at position [k]; [E] is the
    type of an embedding. *)
Fixpoint embedBatch {E} (embed : nat -> string -> JsError + E) (batch : list string)
    (embeddings : list E) (calls : list call) : (JsError + list E) * list call :=
  match batch with
  | [] => (inr embeddings, calls)
  | text :: rest =>
      match embed (length embeddings) text with
      | inl err => (inl err, (calls ++ [EmbedContent text])%list)
      | inr values =>
          embedBatch embed rest (embeddings ++ [values])%list
            (calls ++ [EmbedContent text])%list
      end
  end.

(** Lines 116-129: [for (let i = 0; i < texts.length; i += batchSize)],
    one iteration per unit of [fuel]. *)
Fixpoint embedLoop {E} (fuel : nat) (embed : nat -> string -> JsError + E)
    (texts : list string) (i : nat) (embeddings : list E) (calls : list call)
    : (JsError + list E) * list call :=
  match fuel with
  | O => (inr embeddings, calls)
  | S fuel' =>
      if (i <? length texts)%nat then
        let batch := firstn 10 (skipn i texts) in
        match embedBatch embed batch embeddings calls with
        | (inl err, calls') => (inl err, calls')
        | (inr embeddings', calls') =>
            let calls'' :=
              if (i + 10 <? length texts)%nat then (calls' ++ [Wait 100])%list
              else calls' in
            embedLoop fuel' embed texts (i + 10) embeddings' calls''
        end
      else (inr embeddings, calls)
  end.

(** Lines 108-136; an error is logged and thrown again. The loop runs at
    most once per text, so [length texts] iterations are enough. *)
Definition generateEmbeddings {E} (embed : nat -> string -> JsError + E)
    (texts : list string) : (JsError + list E) * list call :=
  embedLoop (length texts) embed texts 0 [] [].

Definition isEmbed (c : call) : bool :=
  match c with
  | EmbedContent _ => true
  | Wait _ => false
  end.

(** The texts sent for embedding, and the number of delays. *)
Definition embedded (calls : list call) : list call := List.filter isEmbed calls.
Definition waits (calls : list call) : nat :=
  length (List.filter (fun c => negb (isEmbed c)) calls).

End Rag.

(** More concrete data: folders with many messages. *)
Module Sample2.
(** the scenario message fetched 26 times, every collaborator answering *)
Definition busy : FolderOutcomes :=
  MkFolderOutcomes None (repeat (Sample.message, Sample.allGood) 26) None.
(** a listener whose binding of [running] is [true], and its world *)
Definition listener : ExistsHandler := MkExists Sample.account Sample.inbox 0.
Definition listening : World := MkWorld ∅ [] [] [true] ∅ ∅.
(** the status query fails *)
Definition statusDown : ExistsOutcomes :=
  MkExistsOutcomes None (inl Sample.down) [(Sample.message, Sample.allGood)] None.
(** the mailbox is empty: [uidNext] is 1 *)
Definition emptyBox : ExistsOutcomes :=
  MkExistsOutcomes None (inr (Some 1%Z)) [(Sample.message, Sample.allGood)] None.
(** the index store is down for the second of three messages *)
Definition broken (rest : list (Msg.t * Outcomes)) : FolderOutcomes :=
  MkFolderOutcomes None
    ((Sample.message, Sample.allGood) :: (Sample.message2, Sample.storeDown) :: rest) None.
End Sample2.

(* ===================================================================== *)
(** ** Further observations on traces, identifiers and stores *)
(* ===================================================================== *)

(** The calls one run of [handleEmail] can make. *)
Definition isPipelineCall (e : Event) : bool :=
  match e with
  | EsGet _ | GeminiPost _ _ | EsIndex _ _ | SlackSend _ _ _ | WebhookPost _ _ _ => true
  | _ => false
  end.

(** The calls to the two notifiers, oldest first. *)
Definition notifierCalls (t : list Event) : list Event :=
  List.filter (fun e => isSlackSend e || isWebhookPost e) t.

(** The notifier calls of the notification block (lines 298-316). *)
Definition notifications (o : Outcomes) (aiCategory subject from account : string)
    : list Event :=
  if String.eqb aiCategory "Interested" then
    match slack_fault o with
    | Some _ => [SlackSend subject from account]
    | None => [SlackSend subject from account; WebhookPost subject from account]
    end
  else [].

Definition isSleep (e : Event) : bool :=
  match e with
  | Sleep _ => true
  | _ => false
  end.

(** The number of pauses taken so far. *)
Definition pauses (t : list Event) : nat := length (List.filter isSleep t).

(** Every character of [s] satisfies [p]. *)
Fixpoint allChars (p : ascii -> bool) (s : string) : bool :=
  match s with
  | EmptyString => true
  | String c r => p c && allChars p r
  end.

Definition isAngleBracket (c : ascii) : bool :=
  Ascii.eqb c "<"%char || Ascii.eqb c ">"%char.

(** The tags [determineSpecialUse] can return. *)
Definition specialUseTags : list string :=
  ["inbox"; "sent"; "drafts"; "spam"; "trash"; "important"; "starred"; "archive";
   "custom"].

Definition isReconnect (e : Event) : bool :=
  match e with
  | ReconnectIn _ _ => true
  | _ => false
  end.

(** The reconnects scheduled so far, oldest first. *)
Definition reconnects (t : list Event) : list Event := List.filter isReconnect t.

(** The reconnects scheduled are as before. *)
Definition sameReconnects (w w' : World) : Prop :=
  reconnects (trace w') = reconnects (trace w).

(** [folder.name === 'INBOX'] *)
Definition namedINBOX (folder : Mailbox.t) : bool := String.eqb (Mailbox.name folder) "INBOX".

(** Every id of the index in [w] is still an id of the index in [w']. *)
Definition storeKeeps (w w' : World) : Prop :=
  forall id, is_Some (store w !! id) -> is_Some (store w' !! id).

(* ===================================================================== *)
(** * Properties *)
(* ===================================================================== *)

(* ===================================================================== *)
(** ** SHA-1 test vectors *)
(* ===================================================================== *)

Example sha1_abc : Sha1.sha1_hex "abc" = "a9993e364706816aba3e25717850c26c9cd0d89d".
Proof. vm_compute. reflexivity. Qed.

Example sha1_empty : Sha1.sha1_hex "" = "da39a3ee5e6b4b0d3255bfef95601890afd80709".
Proof. vm_compute. reflexivity. Qed.

Example sha1_two_blocks :
  Sha1.sha1_hex "The quick brown fox jumps over the lazy dog, twice over the fence"
  = "c0126887dd5d487a51f14c8dff5df92bbe4917c5".
Proof. vm_compute. reflexivity. Qed.

(* ===================================================================== *)
(** ** Strings: substring search and case folding *)
(* ===================================================================== *)

Section StringFacts.
Import JsString.

Lemma append_nil (s : string) : "" ++ s = s.
Proof. reflexivity. Qed.

Lemma append_cons (c : ascii) (a b : string) : String c a ++ b = String c (a ++ b).
Proof. reflexivity. Qed.

Lemma append_assoc (a b c : string) : (a ++ b) ++ c = a ++ b ++ c.
Proof.
  induction a as [|x a IH]; [reflexivity|].
  now rewrite !append_cons, IH.
Qed.

Lemma startsWith_cons (a b : ascii) (s p : string) :
  startsWith (String b s) (String a p) = if Ascii.eqb a b then startsWith s p else false.
Proof. reflexivity. Qed.

Lemma startsWith_iff (s p : string) :
  startsWith s p = true <-> exists post, s = p ++ post.
Proof.
  revert s. induction p as [|a p IH]; intros s.
  - split; [intros _; exists s; reflexivity | intros _; destruct s; reflexivity].
  - destruct s as [|b s].
    + split; [discriminate | intros [post H]; discriminate].
    + rewrite startsWith_cons. destruct (Ascii.eqb a b) eqn:E.
      * apply Ascii.eqb_eq in E. subst b. rewrite IH.
        split; intros [post H]; exists post; rewrite append_cons in *;
          [now rewrite H | now inversion H].
      * split; [discriminate|]. intros [post H]. rewrite append_cons in H.
        inversion H. subst. rewrite Ascii.eqb_refl in E. discriminate.
Qed.

Lemma includes_unfold (s needle : string) :
  includes s needle =
  startsWith s needle
  || match s with EmptyString => false | String _ r => includes r needle end.
Proof. destruct s; reflexivity. Qed.

Lemma includes_iff (s needle : string) :
  includes s needle = true <-> exists pre post, s = pre ++ needle ++ post.
Proof.
  induction s as [|c r IH]; rewrite includes_unfold, orb_true_iff, startsWith_iff.
  - split.
    + intros [[post H]|H]; [exists "", post; exact H | discriminate].
    + intros [pre [post H]]. left.
      destruct pre; [rewrite append_nil in H; eauto | discriminate].
  - rewrite IH. split.
    + intros [[post H]|[pre [post H]]].
      * exists "", post. exact H.
      * exists (String c pre), post. now rewrite append_cons, H.
    + intros [pre [post H]]. destruct pre as [|c' pre].
      * left. rewrite append_nil in H. eauto.
      * right. rewrite append_cons in H. inversion H. eauto.
Qed.

Lemma includes_prefix (s p q : string) :
  includes s (p ++ q) = true -> includes s p = true.
Proof.
  rewrite !includes_iff. intros [pre [post H]].
  exists pre, (q ++ post). now rewrite H, append_assoc.
Qed.

Lemma toLowerCase_app (a b : string) :
  toLowerCase (a ++ b) = toLowerCase a ++ toLowerCase b.
Proof.
  induction a as [|x a IH]; [reflexivity|].
  rewrite append_cons. simpl. now rewrite IH.
Qed.

Lemma toLowerCase_split (s a b : string) :
  toLowerCase s = a ++ b ->
  exists a' b', s = a' ++ b' /\ toLowerCase a' = a /\ toLowerCase b' = b.
Proof.
  revert s. induction a as [|c a IH]; intros s H.
  - exists "", s. auto.
  - rewrite append_cons in H. destruct s as [|d s]; simpl in H; [discriminate|].
    inversion H as [[Hc Hs]]. destruct (IH _ Hs) as [a' [b' [E [Ha Hb]]]].
    exists (String d a'), b'. rewrite append_cons. simpl. rewrite <- E, Ha. auto.
Qed.

(** Searching the lower-cased name for a lower-case keyword is searching
    the name with case ignored. *)
Lemma includes_toLowerCase (name kw : string) :
  toLowerCase kw = kw ->
  (includes (toLowerCase name) kw = true <-> occursIgnoringCase kw name).
Proof.
  intros Hkw. rewrite includes_iff. unfold occursIgnoringCase. rewrite Hkw. split.
  - intros [pre [post H]].
    destruct (toLowerCase_split _ _ _ H) as [pre' [rest [E [_ Hrest]]]].
    destruct (toLowerCase_split _ _ _ Hrest) as [mid [post' [E' [Hmid _]]]].
    exists pre', mid, post'. subst. auto.
  - intros [pre [mid [post [E Hmid]]]].
    exists (toLowerCase pre), (toLowerCase post).
    now rewrite E, !toLowerCase_app, Hmid.
Qed.

End StringFacts.

(* ===================================================================== *)
(** ** The folder classifier *)
(* ===================================================================== *)

Lemma determineSpecialUse_refines (folderName : string) (flags : list string) :
  determineSpecialUse folderName flags = specialUse_spec folderName flags.
Proof.
  unfold determineSpecialUse, specialUse_spec, firstMatch, nameKeywords, flagTags.
  cbn [find fst snd option_map].
  set (l := JsString.toLowerCase folderName).
  pose proof (includes_prefix l "sent" " mail") as Hsent.
  change ("sent" ++ " mail") with "sent mail" in Hsent.
  destruct (JsString.includes l "inbox"); [reflexivity|].
  destruct (JsString.includes l "sent").
  { reflexivity. }
  destruct (JsString.includes l "sent mail"); [now specialize (Hsent eq_refl)|].
  cbn [orb option_map snd].
  repeat match goal with
         | |- context [JsString.includes l ?k] =>
             destruct (JsString.includes l k); cbn [orb option_map snd]; try reflexivity
         end.
  repeat match goal with
         | |- context [hasFlag flags ?k] =>
             destruct (hasFlag flags k); cbn [orb option_map snd]; try reflexivity
         end.
Qed.

Lemma nameKeywords_lower (kw tag : string) :
  In (kw, tag) nameKeywords -> JsString.toLowerCase kw = kw.
Proof.
  unfold nameKeywords. cbn [In]. intros H.
  repeat (destruct H as [H|H]; [inversion H; reflexivity|]). contradiction.
Qed.

Lemma unrecognizedName_falls_back (folderName : string) (flags : list string) :
  unrecognizedName folderName = true ->
  determineSpecialUse folderName flags =
  match firstMatch (hasFlag flags) flagTags with
  | Some tag => tag
  | None => "custom"
  end.
Proof.
  intros H. rewrite determineSpecialUse_refines. unfold specialUse_spec.
  replace (firstMatch (JsString.includes (JsString.toLowerCase folderName)) nameKeywords)
    with (@None string); [reflexivity|].
  unfold unrecognizedName in H. unfold firstMatch.
  induction nameKeywords as [|kv rest IH]; [reflexivity|].
  cbn [forallb] in H. apply andb_true_iff in H. destruct H as [H1 H2].
  cbn [find]. apply negb_true_iff in H1. rewrite H1. now apply IH.
Qed.

(** C5, counterexample: the folder name [Foo] contains no keyword and its
    flags contain [\Junk], yet the tag is [sent], not [spam]: the flag
    [\Sent] comes earlier in the ordered flag list. *)
Lemma determineSpecialUse_junk_not_always_spam :
  unrecognizedName "Foo" = true /\
  hasFlag ["\Sent"; "\Junk"] "\Junk" = true /\
  determineSpecialUse "Foo" ["\Sent"; "\Junk"] = "sent" /\
  determineSpecialUse "Foo" ["\Sent"; "\Junk"] <> "spam".
Proof. repeat split; try reflexivity. discriminate. Qed.

(** C5, as amended: [determineSpecialUse] returns the tag of the first
    name keyword (inbox, sent, draft, spam/junk, trash/bin, important,
    starred, all mail) that occurs in the folder name with case ignored;
    only when none occurs does it return the tag of the first flag of the
    ordered flag list that the flags contain; and [custom] when neither
    matches. In particular [[Gmail]/Sent Mail] gives [sent]; a name without
    keyword whose flags contain [\Junk] and none of the earlier flags
    [\Inbox], [\Sent], [\Drafts] gives [spam]; a name without keyword and
    flags without any listed flag give [custom]. *)
Theorem determineSpecialUse_ordered_match :
  (forall folderName flags,
      determineSpecialUse folderName flags = specialUse_spec folderName flags) /\
  (forall folderName kw tag,
      In (kw, tag) nameKeywords ->
      (JsString.includes (JsString.toLowerCase folderName) kw = true
       <-> occursIgnoringCase kw folderName)) /\
  (forall flags, determineSpecialUse "[Gmail]/Sent Mail" flags = "sent") /\
  (forall folderName flags,
      unrecognizedName folderName = true ->
      hasFlag flags "\Junk" = true ->
      hasFlag flags "\Inbox" = false ->
      hasFlag flags "\Sent" = false ->
      hasFlag flags "\Drafts" = false ->
      determineSpecialUse folderName flags = "spam") /\
  (forall folderName flags,
      unrecognizedName folderName = true ->
      (forall f tag, In (f, tag) flagTags -> hasFlag flags f = false) ->
      determineSpecialUse folderName flags = "custom").
Proof.
  split; [exact determineSpecialUse_refines|].
  split.
  { intros folderName kw tag Hin. apply includes_toLowerCase.
    exact (nameKeywords_lower _ _ Hin). }
  split; [reflexivity|].
  split.
  - intros folderName flags Hname Hjunk Hinbox Hsent Hdrafts.
    rewrite (unrecognizedName_falls_back _ _ Hname).
    unfold firstMatch, flagTags. cbn [find fst snd].
    now rewrite Hinbox, Hsent, Hdrafts, Hjunk.
  - intros folderName flags Hname Hflags.
    rewrite (unrecognizedName_falls_back _ _ Hname).
    unfold firstMatch.
    replace (find (fun kv => hasFlag flags (fst kv)) flagTags)
      with (@None (string * string)); [reflexivity|].
    revert Hflags. induction flagTags as [|[f tag] rest IH]; intros Hflags; [reflexivity|].
    cbn [find fst]. rewrite (Hflags f tag (or_introl eq_refl)).
    apply IH. intros f' tag' Hin. apply (Hflags f' tag'). now right.
Qed.

(** The amended statement at concrete folders. *)
Lemma determineSpecialUse_ordered_match_witness :
  determineSpecialUse "Clutter" ["\HasNoChildren"; "\Junk"] = "spam" /\
  determineSpecialUse "Projects" ["\HasChildren"] = "custom" /\
  (JsString.includes (JsString.toLowerCase "My BIN") "bin" = true
   <-> occursIgnoringCase "bin" "My BIN").
Proof.
  destruct determineSpecialUse_ordered_match as (_ & Hcase & _ & Hjunk & Hcustom).
  split; [|split].
  - apply Hjunk; reflexivity.
  - apply Hcustom; [reflexivity|].
    intros f tag Hin. unfold flagTags in Hin. cbn [In] in Hin.
    repeat (destruct Hin as [Hin|Hin]; [inversion Hin; reflexivity|]). contradiction.
  - apply (Hcase "My BIN" "bin" "trash"). unfold nameKeywords. cbn [In]. tauto.
Defined.

(* ===================================================================== *)
(** ** The fingerprint *)
(* ===================================================================== *)

Section Normalization.
Import JsString.

Lemma occurs_removeAngleBrackets (s : string) :
  occurs "<" (removeAngleBrackets s) = false /\
  occurs ">" (removeAngleBrackets s) = false.
Proof.
  induction s as [|c r [IH1 IH2]]; [split; reflexivity|].
  cbn [removeAngleBrackets].
  destruct (Ascii.eqb c "<") eqn:E1; [auto|].
  destruct (Ascii.eqb c ">") eqn:E2; [auto|].
  cbn [orb occurs]. rewrite IH1, IH2.
  rewrite (Ascii.eqb_sym "<"%char c), (Ascii.eqb_sym ">"%char c), E1, E2. auto.
Qed.

Lemma occurs_trimStart (c : ascii) (s : string) :
  occurs c (trimStart s) = true -> occurs c s = true.
Proof.
  induction s as [|d r IH]; [auto|]. simpl.
  destruct (isWhiteSpace d); [|auto].
  intros H. rewrite (IH H). apply orb_true_r.
Qed.

Lemma occurs_trimEnd (c : ascii) (s : string) :
  occurs c (trimEnd s) = true -> occurs c s = true.
Proof.
  induction s as [|d r IH]; [auto|]. simpl.
  destruct (trimEnd r) as [|e r'] eqn:E.
  - destruct (isWhiteSpace d); simpl; [discriminate|].
    rewrite orb_false_r. intros ->. reflexivity.
  - simpl. intros H. apply orb_true_iff in H. destruct H as [H|H].
    + now rewrite H.
    + simpl in IH. rewrite (IH H). apply orb_true_r.
Qed.

Lemma firstChar_trimStart (s : string) (c : ascii) :
  firstChar (trimStart s) = Some c -> isWhiteSpace c = false.
Proof.
  induction s as [|d r IH]; [discriminate|]. simpl.
  destruct (isWhiteSpace d) eqn:E; [exact IH|].
  simpl. intros H. inversion H. now subst.
Qed.

Lemma firstChar_trimEnd (s : string) (c : ascii) :
  firstChar (trimEnd s) = Some c -> firstChar s = Some c.
Proof.
  destruct s as [|d r]; [auto|]. simpl.
  destruct (trimEnd r); [destruct (isWhiteSpace d)|]; simpl; auto. discriminate.
Qed.

Lemma lastChar_trimEnd (s : string) (c : ascii) :
  lastChar (trimEnd s) = Some c -> isWhiteSpace c = false.
Proof.
  induction s as [|d r IH]; [discriminate|]. simpl.
  destruct (trimEnd r) as [|e r'] eqn:E.
  - destruct (isWhiteSpace d) eqn:W; simpl; [discriminate|].
    intros H. inversion H. now subst.
  - exact IH.
Qed.

(** The normal form has no angle bracket and no white space at either end. *)
Lemma messageIdClean_stripped (raw : string) :
  occurs "<" (messageIdClean raw) = false /\
  occurs ">" (messageIdClean raw) = false /\
  (forall c, firstChar (messageIdClean raw) = Some c -> isWhiteSpace c = false) /\
  (forall c, lastChar (messageIdClean raw) = Some c -> isWhiteSpace c = false).
Proof.
  unfold messageIdClean, trim.
  destruct (occurs_removeAngleBrackets raw) as [H1 H2].
  repeat split.
  - destruct (occurs "<" (trimEnd (trimStart (removeAngleBrackets raw)))) eqn:E; [|reflexivity].
    apply occurs_trimEnd, occurs_trimStart in E. congruence.
  - destruct (occurs ">" (trimEnd (trimStart (removeAngleBrackets raw)))) eqn:E; [|reflexivity].
    apply occurs_trimEnd, occurs_trimStart in E. congruence.
  - intros c H. apply firstChar_trimEnd in H. exact (firstChar_trimStart _ _ H).
  - intros c. apply lastChar_trimEnd.
Qed.

End Normalization.

(** C6: the fingerprint is the hash of the raw identifier with every angle
    bracket deleted and the surrounding white space trimmed, so raw
    identifiers with equal normal forms have equal fingerprints; and
    [fingerprint "<abc@x>" = fingerprint " abc@x "]. *)
Theorem fingerprint_normalizes :
  (forall raw, fingerprint raw = Sha1.sha1_hex (messageIdClean raw)) /\
  (forall raw,
      occurs "<" (messageIdClean raw) = false /\
      occurs ">" (messageIdClean raw) = false /\
      (forall c, firstChar (messageIdClean raw) = Some c -> JsString.isWhiteSpace c = false) /\
      (forall c, lastChar (messageIdClean raw) = Some c -> JsString.isWhiteSpace c = false)) /\
  (forall a b, messageIdClean a = messageIdClean b -> fingerprint a = fingerprint b) /\
  messageIdClean "<abc@x>" = "abc@x" /\
  messageIdClean " abc@x " = "abc@x" /\
  fingerprint "<abc@x>" = fingerprint " abc@x ".
Proof.
  split; [reflexivity|].
  split; [exact messageIdClean_stripped|].
  split; [intros a b H; unfold fingerprint; now rewrite H|].
  repeat split; reflexivity.
Qed.

(** Two raw identifiers with the same normal form, and their fingerprint. *)
Lemma fingerprint_normalizes_witness :
  messageIdClean "<<id-1>  " = messageIdClean " id-1> " /\
  fingerprint "<<id-1>  " = fingerprint " id-1> " /\
  fingerprint "<<id-1>  " = "188189cf87016bdd55fb0dc17c59c64c6b2956e2".
Proof.
  split; [reflexivity|]. split.
  - destruct fingerprint_normalizes as (_ & _ & H & _). apply H. reflexivity.
  - vm_compute. reflexivity.
Defined.

(* ===================================================================== *)
(** ** The pipeline, step by step *)
(* ===================================================================== *)

Arguments fingerprint : simpl never.
Arguments messageIdClean : simpl never.
Arguments emailDoc : simpl never.

Lemma categorizeEmail_eq (reply : GeminiReply) (subject body : string) (w : World) :
  categorizeEmail reply subject body w
  = (Return (resolvedLabel reply), record (GeminiPost subject body) w).
Proof. destruct reply; reflexivity. Qed.

Lemma notifyInterested_eq (o : Outcomes) (aiCategory subject from account : string)
    (w : World) :
  notifyInterested o aiCategory subject from account w
  = (Return tt, notifiedWorld o aiCategory subject from account w).
Proof.
  unfold notifyInterested, notifiedWorld, try_catch, bind,
    sendInterestedEmailNotification, triggerInterestedEmailWebhook, call, ret.
  destruct (String.eqb aiCategory "Interested"); [|reflexivity].
  destruct (slack_fault o); [reflexivity|].
  destruct (webhook_fault o); reflexivity.
Qed.

Section Pipeline.
Variables (o : Outcomes) (account : Account.t) (msg : Msg.t) (folder : Mailbox.t).

Lemma indexAndNotify_eq (raw : string) (w : World) :
  indexAndNotify o account msg folder raw w =
  let subject := default "" (envelope_get Msg.subject msg) in
  let doc := emailDoc o account msg folder raw in
  let w1 := record (EsIndex (fingerprint raw) doc)
              (record (GeminiPost subject (default "" (Msg.source msg))) w) in
  match index_fault o with
  | Some err => (Throw err, w1)
  | None =>
      (Return tt,
       notifiedWorld o (resolvedLabel (gemini o)) subject
         (addresses (envelope_get Msg.from msg)) (Account.id account)
         (set_store (fun s => <[fingerprint raw := doc]> s) w1))
  end.
Proof.
  unfold indexAndNotify, bind. rewrite categorizeEmail_eq.
  unfold es_index. destruct (index_fault o); [reflexivity|].
  now rewrite notifyInterested_eq.
Qed.

Lemma handleEmail_without_id (w : World) :
  envelope_get Msg.messageId msg = None \/ envelope_get Msg.messageId msg = Some "" ->
  handleEmail o account msg folder w = (Return tt, w).
Proof. unfold handleEmail. intros [-> | ->]; reflexivity. Qed.

Lemma handleEmail_eq (raw : string) (w : World) :
  envelope_get Msg.messageId msg = Some raw -> raw <> "" ->
  handleEmail o account msg folder w =
  match es_get (get_fault o) (fingerprint raw) w with
  | (Return _, w1) => (Return tt, w1)
  | (Throw error, w1) =>
      if is404 error then indexAndNotify o account msg folder raw w1
      else (Throw error, w1)
  end.
Proof.
  intros H Hne. unfold handleEmail. rewrite H.
  destruct raw as [|c r]; [congruence|].
  unfold bind, attempt.
  destruct (es_get (get_fault o) (fingerprint (String c r)) w) as [[d|e] w1];
    [reflexivity|].
  destruct (is404 e); reflexivity.
Qed.

End Pipeline.

Lemma es_get_eq (fault : option JsError) (id : string) (w : World) :
  es_get fault id w =
  (match fault with
   | Some err => Throw err
   | None => match store w !! id with Some d => Return d | None => Throw notFound end
   end, record (EsGet id) w).
Proof. unfold es_get. destruct fault; [reflexivity|]. destruct (store w !! id); reflexivity. Qed.

Lemma store_notifiedWorld (o : Outcomes) (l s f a : string) (w : World) :
  store (notifiedWorld o l s f a w) = store w.
Proof.
  unfold notifiedWorld. destruct (String.eqb l "Interested"); [|reflexivity].
  destruct (slack_fault o); reflexivity.
Qed.

(* ===================================================================== *)
(** ** Deduplication *)
(* ===================================================================== *)

(** A run of the pipeline that completes normally either found the
    document, and left the store as it was, or wrote the document under
    the fingerprint. *)
Lemma handleEmail_completed (o : Outcomes) (account : Account.t) (msg : Msg.t)
    (folder : Mailbox.t) (raw : string) (w w1 : World) :
  envelope_get Msg.messageId msg = Some raw -> raw <> "" ->
  handleEmail o account msg folder w = (Return tt, w1) ->
  (store w1 = store w /\ is_Some (store w !! fingerprint raw)) \/
  store w1 = <[fingerprint raw := emailDoc o account msg folder raw]> (store w).
Proof.
  intros Hid Hne. rewrite (handleEmail_eq _ _ _ _ raw w Hid Hne), es_get_eq.
  assert (Hnew : forall w0, store w0 = store w ->
            indexAndNotify o account msg folder raw w0 = (Return tt, w1) ->
            store w1 = <[fingerprint raw := emailDoc o account msg folder raw]> (store w)).
  { intros w0 Hw0. rewrite indexAndNotify_eq. cbv zeta.
    destruct (index_fault o); [discriminate|].
    intros H. inversion H. rewrite store_notifiedWorld. simpl. now rewrite Hw0. }
  destruct (get_fault o) as [err|].
  - destruct (is404 err); [|discriminate]. intros H. right.
    eapply Hnew; [|exact H]. reflexivity.
  - destruct (store w !! fingerprint raw) as [d|] eqn:E.
    + intros H. inversion H. left. split; [reflexivity | eauto].
    + change (is404 notFound) with true. cbv iota. intros H. right.
      eapply Hnew; [|exact H]. reflexivity.
Qed.

(** C1: once a message has been processed, processing a message with the
    same protocol identifier again finds the document in the dedup check
    and stops there: the only call made is the existence query, nothing is
    written to the index and no notifier is called; starting from an empty
    index, the store holds exactly one document after both calls. *)
Theorem handleEmail_idempotent (o1 o2 : Outcomes) (account account2 : Account.t)
    (msg msg2 : Msg.t) (folder folder2 : Mailbox.t) (raw raw2 : string) (w w1 : World) :
  envelope_get Msg.messageId msg = Some raw -> raw <> "" ->
  envelope_get Msg.messageId msg2 = Some raw2 -> raw2 <> "" ->
  messageIdClean raw2 = messageIdClean raw ->
  handleEmail o1 account msg folder w = (Return tt, w1) ->
  get_fault o2 = None ->
  is_Some (store w1 !! fingerprint raw) /\
  exists w2,
    handleEmail o2 account2 msg2 folder2 w1 = (Return tt, w2) /\
    trace w2 = (trace w1 ++ [EsGet (fingerprint raw)])%list /\
    store w2 = store w1 /\
    (store w = ∅ -> size (store w2) = 1).
Proof.
  intros Hid Hne Hid2 Hne2 Hsame Hfirst Hget.
  assert (Hfp : fingerprint raw2 = fingerprint raw) by (unfold fingerprint; now rewrite Hsame).
  pose proof (handleEmail_completed _ _ _ _ _ _ _ Hid Hne Hfirst) as Hdone.
  assert (Hstored : is_Some (store w1 !! fingerprint raw)).
  { destruct Hdone as [[-> H]| ->]; [exact H|]. rewrite lookup_insert_eq. eauto. }
  split; [exact Hstored|].
  exists (record (EsGet (fingerprint raw)) w1).
  split; [|split; [reflexivity|split; [reflexivity|]]].
  - rewrite (handleEmail_eq _ _ _ _ raw2 w1 Hid2 Hne2), es_get_eq, Hget, Hfp.
    destruct Hstored as [d ->]. reflexivity.
  - intros Hempty. change (store (record (EsGet (fingerprint raw)) w1)) with (store w1).
    destruct Hdone as [[_ [d Hd]]| ->].
    + rewrite Hempty, lookup_empty in Hd. discriminate.
    + rewrite Hempty, insert_empty. apply map_size_singleton.
Qed.

(** The end-to-end scenario, processed twice. *)
Lemma handleEmail_idempotent_witness :
  let w1 := snd (handleEmail Sample.allGood Sample.account Sample.message Sample.inbox
                   emptyWorld) in
  is_Some (store w1 !! fingerprint "<id-1>") /\
  exists w2,
    handleEmail Sample.slackDown Sample.account Sample.message Sample.inbox w1
      = (Return tt, w2) /\
    trace w2 = (trace w1 ++ [EsGet (fingerprint "<id-1>")])%list /\
    store w2 = store w1 /\
    (store emptyWorld = ∅ -> size (store w2) = 1).
Proof.
  apply (handleEmail_idempotent Sample.allGood Sample.slackDown Sample.account
           Sample.account Sample.message Sample.message Sample.inbox Sample.inbox
           "<id-1>" "<id-1>" emptyWorld).
  - reflexivity.
  - discriminate.
  - reflexivity.
  - discriminate.
  - reflexivity.
  - vm_compute. reflexivity.
  - reflexivity.
Defined.

Lemma is404_iff (err : JsError) : is404 err = true <-> statusCode err = Some 404%Z.
Proof.
  unfold is404. destruct (statusCode err) as [c|].
  - rewrite Z.eqb_eq. split; [now intros -> | now inversion 1].
  - split; discriminate.
Qed.

Lemma trace_notifiedWorld (o : Outcomes) (l s f a : string) (w : World) (e : Event) :
  In e (trace w) -> In e (trace (notifiedWorld o l s f a w)).
Proof.
  intros H. unfold notifiedWorld. destruct (String.eqb l "Interested"); [|exact H].
  destruct (slack_fault o); simpl; rewrite ?in_app_iff; auto.
Qed.

(** Whatever the store and the notifiers do afterwards, the pipeline that
    passed the dedup check asks the classifier and attempts the write. *)
Lemma indexAndNotify_trace (o : Outcomes) (account : Account.t) (msg : Msg.t)
    (folder : Mailbox.t) (raw : string) (w : World) :
  let w' := snd (indexAndNotify o account msg folder raw w) in
  In (GeminiPost (default "" (envelope_get Msg.subject msg)) (default "" (Msg.source msg)))
     (trace w') /\
  In (EsIndex (fingerprint raw) (emailDoc o account msg folder raw)) (trace w').
Proof.
  rewrite indexAndNotify_eq. cbv zeta.
  destruct (index_fault o); cbn [snd].
  - simpl. rewrite !in_app_iff. simpl. auto.
  - split; apply trace_notifiedWorld; simpl; rewrite !in_app_iff; simpl; auto.
Qed.

(** C8: when the existence query fails with status 404 the document is
    taken to be absent and the pipeline goes on (classifier, then index
    write); when it fails with anything else, [handleEmail] fails with
    that same error and does nothing more. *)
Theorem dedup_check_not_found_only (o : Outcomes) (account : Account.t) (msg : Msg.t)
    (folder : Mailbox.t) (raw : string) (w : World) :
  envelope_get Msg.messageId msg = Some raw -> raw <> "" ->
  (get_fault o = None -> store w !! fingerprint raw = None ->
   es_get (get_fault o) (fingerprint raw) w
     = (Throw notFound, record (EsGet (fingerprint raw)) w)) /\
  (forall err w1,
      es_get (get_fault o) (fingerprint raw) w = (Throw err, w1) ->
      statusCode err = Some 404%Z ->
      handleEmail o account msg folder w = indexAndNotify o account msg folder raw w1 /\
      In (EsIndex (fingerprint raw) (emailDoc o account msg folder raw))
         (trace (snd (handleEmail o account msg folder w)))) /\
  (forall err w1,
      es_get (get_fault o) (fingerprint raw) w = (Throw err, w1) ->
      statusCode err <> Some 404%Z ->
      handleEmail o account msg folder w = (Throw err, w1) /\
      trace w1 = (trace w ++ [EsGet (fingerprint raw)])%list /\
      store w1 = store w).
Proof.
  intros Hid Hne. split; [|split].
  - intros Hget Habsent. now rewrite es_get_eq, Hget, Habsent.
  - intros err w1 Hthrown Hstatus. apply is404_iff in Hstatus.
    assert (E : handleEmail o account msg folder w
                = indexAndNotify o account msg folder raw w1).
    { now rewrite (handleEmail_eq _ _ _ _ raw w Hid Hne), Hthrown, Hstatus. }
    split; [exact E|]. rewrite E. apply indexAndNotify_trace.
  - intros err w1 Hthrown Hstatus.
    assert (H404 : is404 err = false).
    { destruct (is404 err) eqn:E; [|reflexivity]. apply is404_iff in E. contradiction. }
    split.
    + now rewrite (handleEmail_eq _ _ _ _ raw w Hid Hne), Hthrown, H404.
    + rewrite es_get_eq in Hthrown. inversion Hthrown. split; reflexivity.
Qed.

(** The scenario message against an empty index, and against an index
    store that answers 503. *)
Lemma dedup_check_not_found_only_witness :
  In (EsIndex (fingerprint "<id-1>")
        (emailDoc Sample.allGood Sample.account Sample.message Sample.inbox "<id-1>"))
     (trace (snd (handleEmail Sample.allGood Sample.account Sample.message Sample.inbox
                    emptyWorld))) /\
  handleEmail Sample.storeDown Sample.account Sample.message Sample.inbox emptyWorld
    = (Throw Sample.down, record (EsGet (fingerprint "<id-1>")) emptyWorld).
Proof.
  split.
  - destruct (dedup_check_not_found_only Sample.allGood Sample.account Sample.message
                Sample.inbox "<id-1>" emptyWorld) as (Habsent & Hgo & _);
      [reflexivity | discriminate |].
    apply (Hgo notFound (record (EsGet (fingerprint "<id-1>")) emptyWorld)).
    + apply Habsent; reflexivity.
    + reflexivity.
  - destruct (dedup_check_not_found_only Sample.storeDown Sample.account Sample.message
                Sample.inbox "<id-1>" emptyWorld) as (_ & _ & Hstop);
      [reflexivity | discriminate |].
    apply (Hstop Sample.down (record (EsGet (fingerprint "<id-1>")) emptyWorld)).
    + reflexivity.
    + discriminate.
Defined.

(* ===================================================================== *)
(** ** Classification *)
(* ===================================================================== *)

(** A failed classification is indistinguishable, for the pipeline, from
    the answer [Spam]. *)
Lemma handleEmail_classifier_failure (o : Outcomes) (err : JsError)
    (account : Account.t) (msg : Msg.t) (folder : Mailbox.t) (w : World) :
  handleEmail (with_gemini o (PostFails err)) account msg folder w
  = handleEmail (with_gemini o (ReplyText (Some "Spam"))) account msg folder w.
Proof.
  destruct (envelope_get Msg.messageId msg) as [raw|] eqn:Hid.
  - destruct (string_dec raw "") as [->|Hne].
    + rewrite !handleEmail_without_id; auto.
    + rewrite !(handleEmail_eq _ _ _ _ raw w Hid Hne). cbn [with_gemini get_fault].
      destruct (es_get (get_fault o) (fingerprint raw) w) as [[d|e] w1]; [reflexivity|].
      destruct (is404 e); [|reflexivity].
      rewrite !indexAndNotify_eq. reflexivity.
  - rewrite !handleEmail_without_id; auto.
Qed.

(** C7: when the call to the classification service fails,
    [categorizeEmail] returns the label [Spam] and does not throw (it
    throws for no answer at all); the pipeline then behaves as for the
    answer [Spam], and a message that is not yet indexed is written to the
    index store. *)
Theorem classifier_failure_degrades :
  (forall err subject body w,
      categorizeEmail (PostFails err) subject body w
      = (Return "Spam", record (GeminiPost subject body) w)) /\
  (forall reply subject body w,
      exists label, fst (categorizeEmail reply subject body w) = Return label) /\
  (forall o err account msg folder w,
      handleEmail (with_gemini o (PostFails err)) account msg folder w
      = handleEmail (with_gemini o (ReplyText (Some "Spam"))) account msg folder w) /\
  (forall o err account msg folder raw w,
      gemini o = PostFails err ->
      envelope_get Msg.messageId msg = Some raw -> raw <> "" ->
      get_fault o = None -> store w !! fingerprint raw = None ->
      index_fault o = None ->
      exists w',
        handleEmail o account msg folder w = (Return tt, w') /\
        store w' !! fingerprint raw = Some (emailDoc o account msg folder raw)).
Proof.
  split; [reflexivity|].
  split; [intros reply subject body w; rewrite categorizeEmail_eq; eauto|].
  split; [exact handleEmail_classifier_failure|].
  intros o err account msg folder raw w Hgem Hid Hne Hget Habsent Hindex.
  rewrite (handleEmail_eq _ _ _ _ raw w Hid Hne), es_get_eq, Hget, Habsent.
  change (is404 notFound) with true. cbv iota.
  rewrite indexAndNotify_eq, Hindex. cbv zeta.
  eexists. split; [reflexivity|].
  rewrite store_notifiedWorld. simpl. apply lookup_insert_eq.
Qed.

(** The scenario message while the classification service is down. *)
Lemma classifier_failure_degrades_witness :
  exists w',
    handleEmail Sample.geminiDown Sample.account Sample.message Sample.inbox emptyWorld
      = (Return tt, w') /\
    store w' !! fingerprint "<id-1>"
      = Some (emailDoc Sample.geminiDown Sample.account Sample.message Sample.inbox "<id-1>").
Proof.
  destruct classifier_failure_degrades as (_ & _ & _ & H).
  apply (H Sample.geminiDown Sample.down); try reflexivity. discriminate.
Defined.

(** C4, counterexample: the classifier answers [Interested], and the
    document that is stored has [aiCategory] null. *)
Lemma stored_aiCategory_is_not_the_label :
  let w' := snd (handleEmail Sample.allGood Sample.account Sample.message Sample.inbox
                   emptyWorld) in
  resolvedLabel (gemini Sample.allGood) = "Interested" /\
  (exists d, store w' !! fingerprint "<id-1>" = Some d /\ Doc.aiCategory d = None) /\
  ~ (exists d, store w' !! fingerprint "<id-1>" = Some d
               /\ Doc.aiCategory d = Some (resolvedLabel (gemini Sample.allGood))).
Proof.
  assert (E : store (snd (handleEmail Sample.allGood Sample.account Sample.message
                            Sample.inbox emptyWorld)) !! fingerprint "<id-1>"
              = Some (emailDoc Sample.allGood Sample.account Sample.message
                        Sample.inbox "<id-1>")).
  { rewrite (handleEmail_eq Sample.allGood Sample.account Sample.message Sample.inbox
               "<id-1>" emptyWorld eq_refl); [|discriminate].
    rewrite es_get_eq. cbn [get_fault Sample.allGood store emptyWorld].
    rewrite lookup_empty. change (is404 notFound) with true. cbv iota.
    rewrite indexAndNotify_eq. cbn [index_fault Sample.allGood]. cbv zeta. cbn [snd].
    rewrite store_notifiedWorld. simpl. apply lookup_insert_eq. }
  cbv zeta. split; [reflexivity|]. split.
  - eexists. split; [exact E|]. reflexivity.
  - intros [d [Hd Hcat]]. rewrite E in Hd. inversion Hd. subst d.
    discriminate Hcat.
Qed.

(** C4, as amended: for every message newly indexed by [handleEmail], the
    persisted document has the fingerprint of the message identifier as
    its id, and its [aiCategory] field is null; the resolved label is not
    stored. *)
Theorem indexed_document_id_and_category (o : Outcomes) (account : Account.t)
    (msg : Msg.t) (folder : Mailbox.t) (raw : string) (w w1 : World) :
  envelope_get Msg.messageId msg = Some raw -> raw <> "" ->
  store w !! fingerprint raw = None ->
  handleEmail o account msg folder w = (Return tt, w1) ->
  exists d,
    store w1 !! fingerprint raw = Some d /\
    d = emailDoc o account msg folder raw /\
    Doc.id d = fingerprint raw /\
    Doc.aiCategory d = None.
Proof.
  intros Hid Hne Habsent Hrun.
  destruct (handleEmail_completed _ _ _ _ _ _ _ Hid Hne Hrun) as [[_ [d Hd]]|Hw1].
  - rewrite Habsent in Hd. discriminate.
  - exists (emailDoc o account msg folder raw).
    rewrite Hw1, lookup_insert_eq. repeat split; reflexivity.
Qed.

(** The scenario message, indexed for the first time. *)
Lemma indexed_document_id_and_category_witness :
  exists d,
    store (snd (handleEmail Sample.allGood Sample.account Sample.message Sample.inbox
                  emptyWorld)) !! fingerprint "<id-1>" = Some d /\
    d = emailDoc Sample.allGood Sample.account Sample.message Sample.inbox "<id-1>" /\
    Doc.id d = fingerprint "<id-1>" /\
    Doc.aiCategory d = None.
Proof.
  apply (indexed_document_id_and_category Sample.allGood Sample.account Sample.message
           Sample.inbox "<id-1>" emptyWorld).
  - reflexivity.
  - discriminate.
  - reflexivity.
  - vm_compute. reflexivity.
Defined.

(* ===================================================================== *)
(** ** Notifications *)
(* ===================================================================== *)

(** C3, counterexample: the message is classified [Interested] and the
    chat notifier fails; the webhook sink is then never called. *)
Lemma slack_failure_skips_webhook :
  let r := handleEmail Sample.slackDown Sample.account Sample.message Sample.inbox
             emptyWorld in
  resolvedLabel (gemini Sample.slackDown) = "Interested" /\
  slack_fault Sample.slackDown = Some Sample.down /\
  webhook_fault Sample.slackDown = None /\
  existsb isSlackSend (trace (snd r)) = true /\
  existsb isWebhookPost (trace (snd r)) = false.
Proof. cbv zeta. repeat split; vm_compute; reflexivity. Qed.

(** C3, as amended: for every message resolved to the interesting
    category the chat notifier is called, and the webhook sink is called
    whenever the chat notifier call succeeds; a failure of either notifier
    does not propagate out of [handleEmail], and neither failure removes or
    alters the document that was persisted. *)
Theorem notifier_failures_contained (o : Outcomes) (account : Account.t) (msg : Msg.t)
    (folder : Mailbox.t) (raw : string) (w : World) :
  envelope_get Msg.messageId msg = Some raw -> raw <> "" ->
  get_fault o = None -> store w !! fingerprint raw = None ->
  index_fault o = None ->
  resolvedLabel (gemini o) = "Interested" ->
  let subject := default "" (envelope_get Msg.subject msg) in
  let sender := addresses (envelope_get Msg.from msg) in
  exists w',
    handleEmail o account msg folder w = (Return tt, w') /\
    store w' = <[fingerprint raw := emailDoc o account msg folder raw]> (store w) /\
    In (SlackSend subject sender (Account.id account)) (trace w') /\
    (slack_fault o = None ->
     In (WebhookPost subject sender (Account.id account)) (trace w')).
Proof.
  intros Hid Hne Hget Habsent Hindex Hlabel subject sender.
  rewrite (handleEmail_eq _ _ _ _ raw w Hid Hne), es_get_eq, Hget, Habsent.
  change (is404 notFound) with true. cbv iota.
  rewrite indexAndNotify_eq, Hindex, Hlabel. cbv zeta.
  eexists. split; [reflexivity|].
  rewrite store_notifiedWorld. split; [reflexivity|].
  unfold notifiedWorld. change (String.eqb "Interested" "Interested") with true. cbv iota.
  destruct (slack_fault o) as [e|].
  - split; [|discriminate]. simpl. rewrite !in_app_iff. simpl. auto.
  - split; [|intros _]; simpl; rewrite !in_app_iff; simpl; auto.
Qed.

(** The scenario message with the chat notifier down: the document is
    stored and [handleEmail] completes normally. *)
Lemma notifier_failures_contained_witness :
  exists w',
    handleEmail Sample.slackDown Sample.account Sample.message Sample.inbox emptyWorld
      = (Return tt, w') /\
    store w' = <[fingerprint "<id-1>" :=
                   emailDoc Sample.slackDown Sample.account Sample.message Sample.inbox
                     "<id-1>"]> (store emptyWorld) /\
    In (SlackSend "Interview Invite" "hr@example.com" "A1") (trace w') /\
    (slack_fault Sample.slackDown = None ->
     In (WebhookPost "Interview Invite" "hr@example.com" "A1") (trace w')).
Proof.
  apply (notifier_failures_contained Sample.slackDown Sample.account Sample.message
           Sample.inbox "<id-1>" emptyWorld); try reflexivity. discriminate.
Defined.

(* ===================================================================== *)
(** ** Relations kept by every step *)
(* ===================================================================== *)

Section Keeps.
Variable R : World -> World -> Prop.
Hypothesis R_refl : forall w, R w w.
Hypothesis R_trans : forall a b c, R a b -> R b c -> R a c.

Local Abbreviation keeps := (keeps R).

Lemma keeps_ret {A} (a : A) : keeps (ret a).
Proof. intros w. apply R_refl. Qed.

Lemma keeps_throw {A} (e : JsError) : keeps (@throw A e).
Proof. intros w. apply R_refl. Qed.

Lemma keeps_bind {A B} (m : Async A) (k : A -> Async B) :
  keeps m -> (forall a, keeps (k a)) -> keeps (bind m k).
Proof.
  intros Hm Hk w. unfold bind. specialize (Hm w).
  destruct (m w) as [[a|e] w1]; cbn [snd] in *; [|exact Hm].
  exact (R_trans _ _ _ Hm (Hk a w1)).
Qed.

Lemma keeps_try_catch {A} (m : Async A) (h : JsError -> Async A) :
  keeps m -> (forall e, keeps (h e)) -> keeps (try_catch m h).
Proof.
  intros Hm Hh w. unfold try_catch. specialize (Hm w).
  destruct (m w) as [[a|e] w1]; cbn [snd] in *; [exact Hm|].
  exact (R_trans _ _ _ Hm (Hh e w1)).
Qed.

Lemma keeps_attempt {A} (m : Async A) : keeps m -> keeps (attempt m).
Proof.
  intros Hm w. unfold attempt. specialize (Hm w). now destruct (m w).
Qed.

Lemma keeps_try_finally {A} (m : Async A) (f : World -> World) :
  keeps m -> (forall w, R w (f w)) -> keeps (try_finally m f).
Proof.
  intros Hm Hf w. unfold try_finally. specialize (Hm w).
  destruct (m w) as [r w1]; cbn [snd] in *. exact (R_trans _ _ _ Hm (Hf w1)).
Qed.

Variable quiet : Event -> Prop.
Hypothesis R_record : forall e w, quiet e -> R w (record e w).

Lemma keeps_emit (e : Event) : quiet e -> keeps (emit e).
Proof. intros He w. now apply R_record. Qed.

Lemma keeps_call (e : Event) (fault : option JsError) : quiet e -> keeps (call e fault).
Proof. intros He w. unfold call. destruct fault; now apply R_record. Qed.

Variable okFolder : Mailbox.t -> Prop.
Hypothesis R_index : forall o account msg folder raw w,
  okFolder folder ->
  R w (set_store (fun s => <[fingerprint raw := emailDoc o account msg folder raw]> s) w).
Hypothesis quiet_pipeline : forall e, quietEvent e = true -> quiet e.

Lemma keeps_es_get (fault : option JsError) (id : string) : keeps (es_get fault id).
Proof. intros w. rewrite es_get_eq. cbn [snd]. apply R_record, quiet_pipeline. reflexivity. Qed.

Lemma keeps_indexAndNotify (o : Outcomes) (account : Account.t) (msg : Msg.t)
    (folder : Mailbox.t) (raw : string) :
  okFolder folder -> keeps (indexAndNotify o account msg folder raw).
Proof.
  intros Hok w. rewrite indexAndNotify_eq. cbv zeta.
  assert (H2 : R w (record (EsIndex (fingerprint raw) (emailDoc o account msg folder raw))
                      (record (GeminiPost (default "" (envelope_get Msg.subject msg))
                                          (default "" (Msg.source msg))) w))).
  { eapply R_trans; apply R_record; apply quiet_pipeline; reflexivity. }
  destruct (index_fault o); cbn [snd]; [exact H2|].
  eapply R_trans; [exact H2|].
  eapply R_trans; [exact (R_index o account msg folder raw _ Hok)|].
  unfold notifiedWorld. destruct (String.eqb _ "Interested"); [|apply R_refl].
  destruct (slack_fault o).
  - apply R_record, quiet_pipeline. reflexivity.
  - eapply R_trans; apply R_record; apply quiet_pipeline; reflexivity.
Qed.

Lemma keeps_handleEmail (o : Outcomes) (account : Account.t) (msg : Msg.t)
    (folder : Mailbox.t) :
  okFolder folder -> keeps (handleEmail o account msg folder).
Proof.
  intros Hok. unfold handleEmail.
  destruct (envelope_get Msg.messageId msg) as [raw|]; [|apply keeps_ret].
  destruct raw as [|c r]; [apply keeps_ret|].
  apply keeps_bind; [apply keeps_attempt, keeps_es_get|].
  intros [d|e]; [apply keeps_ret|].
  destruct (negb (is404 e)); [apply keeps_throw | now apply keeps_indexAndNotify].
Qed.

Lemma keeps_backfillLoop (account : Account.t) (folder : Mailbox.t)
    (msgs : list (Msg.t * Outcomes)) (fault : option JsError) (n : Z) :
  okFolder folder -> keeps (backfillLoop account folder msgs fault n).
Proof.
  intros Hok. revert n. induction msgs as [|[msg o] rest IH]; intros n; cbn [backfillLoop].
  - destruct fault; [apply keeps_throw | apply keeps_ret].
  - apply keeps_bind; [now apply keeps_handleEmail|]. intros _.
    apply keeps_bind; [|intros _; apply IH].
    destruct (_ =? 0)%Z; [apply keeps_emit, quiet_pipeline; reflexivity | apply keeps_ret].
Qed.

Lemma keeps_liveLoop (account : Account.t) (folder : Mailbox.t)
    (msgs : list (Msg.t * Outcomes)) (fault : option JsError) :
  okFolder folder -> keeps (liveLoop account folder msgs fault).
Proof.
  intros Hok. induction msgs as [|[msg o] rest IH]; cbn [liveLoop].
  - destruct fault; [apply keeps_throw | apply keeps_ret].
  - apply keeps_bind; [now apply keeps_handleEmail|]. intros _. exact IH.
Qed.

End Keeps.

(* ===================================================================== *)
(** ** Locks and folder isolation *)
(* ===================================================================== *)

Lemma lockRequests_app (a b : list Event) :
  lockRequests (a ++ b)%list = (lockRequests a ++ lockRequests b)%list.
Proof.
  induction a as [|e a IH]; [reflexivity|].
  destruct e; cbn [lockRequests app]; rewrite IH; reflexivity.
Qed.

Lemma sameLocks_refl (w : World) : sameLocks w w.
Proof. split; reflexivity. Qed.

Lemma sameLocks_trans (a b c : World) : sameLocks a b -> sameLocks b c -> sameLocks a c.
Proof. intros [H1 H2] [H3 H4]. split; congruence. Qed.

Lemma sameLocks_record (e : Event) (w : World) :
  quietEvent e = true -> sameLocks w (record e w).
Proof.
  intros He. split; [reflexivity|]. cbn [record set_trace trace].
  rewrite lockRequests_app. destruct e; try discriminate; cbn; apply app_nil_r.
Qed.

Lemma backfillLoop_sameLocks (account : Account.t) (folder : Mailbox.t)
    (msgs : list (Msg.t * Outcomes)) (fault : option JsError) (n : Z) :
  keeps sameLocks (backfillLoop account folder msgs fault n).
Proof.
  apply (keeps_backfillLoop sameLocks sameLocks_refl sameLocks_trans
           (fun e => quietEvent e = true) sameLocks_record (fun _ => True)).
  - intros. split; reflexivity.
  - auto.
  - exact I.
Qed.

Lemma remove_first_head (path : string) (l : list string) :
  remove_first path (path :: l) = l.
Proof. cbn [remove_first]. now rewrite String.eqb_refl. Qed.

(** [processFolderEmails] never throws, asks for the lock of its folder
    once, and leaves no lock held. *)
Lemma processFolderEmails_contained (fo : FolderOutcomes) (account : Account.t)
    (folder : Mailbox.t) (w : World) :
  exists w',
    processFolderEmails fo account folder w = (Return tt, w') /\
    held w' = held w /\
    lockRequests (trace w') = (lockRequests (trace w) ++ [Mailbox.path folder])%list.
Proof.
  unfold processFolderEmails, try_catch, bind at 1, getMailboxLock.
  destruct (lock_fault fo) as [err|].
  - eexists. split; [reflexivity|]. cbn. rewrite lockRequests_app. auto.
  - unfold try_finally.
    set (w0 := set_held (cons (Mailbox.path folder))
                 (record (GetMailboxLock (Mailbox.path folder)) w)).
    set (body := (emit (FetchSince (Mailbox.path folder)) ;;
                  backfillLoop account folder (fetched fo) (fetch_fault fo) 0 ;;
                  ret tt)%async).
    assert (Hbody : keeps sameLocks body).
    { apply (keeps_bind _ sameLocks_trans).
      - intros w1. now apply sameLocks_record.
      - intros _. apply (keeps_bind _ sameLocks_trans).
        + apply backfillLoop_sameLocks.
        + intros _ w1. apply sameLocks_refl. }
    specialize (Hbody w0).
    destruct (body w0) as [r w1]. cbn [snd] in Hbody. destruct Hbody as [Hheld Hreq].
    assert (Hrel : held (release (Mailbox.path folder) w1) = held w /\
                   lockRequests (trace (release (Mailbox.path folder) w1))
                   = (lockRequests (trace w) ++ [Mailbox.path folder])%list).
    { cbn [release set_held record set_trace held trace].
      rewrite Hheld, lockRequests_app, Hreq. subst w0.
      cbn [set_held record set_trace held trace].
      rewrite remove_first_head, lockRequests_app. cbn. rewrite app_nil_r. auto. }
    destruct r as [[]|e]; eexists; (split; [reflexivity|exact Hrel]).
Qed.

Lemma bind_return {A B} (m : Async A) (k : A -> Async B) (w w1 : World) (a : A) :
  m w = (Return a, w1) -> bind m k w = k a w1.
Proof. intros H. unfold bind. now rewrite H. Qed.

Lemma try_catch_return {A} (m : Async A) (h : JsError -> Async A) (w w1 : World) (a : A) :
  m w = (Return a, w1) -> try_catch m h w = (Return a, w1).
Proof. intros H. unfold try_catch. now rewrite H. Qed.

Lemma getAllFolders_eq (result : JsError + list Listed.t) (account : Account.t)
    (w : World) :
  getAllFolders result account w =
  match result with
  | inl _ => (Return [fallbackInbox], record ImapList w)
  | inr l =>
      (Return (map folderInfo l),
       set_folderCache (fun c => <[Account.id account := map folderInfo l]> c)
         (record ImapList w))
  end.
Proof. destruct result; reflexivity. Qed.

(** The folder loop never throws and asks for the lock of every folder,
    in listing order, whatever happens inside each folder. *)
Lemma folderLoop_visits_all (so : SyncOutcomes) (account : Account.t) (running : nat)
    (folders : list Mailbox.t) :
  forall (i : nat) (client : ImapClient) (w : World),
  exists client' w',
    folderLoop so account running i folders client w = (Return client', w') /\
    held w' = held w /\
    lockRequests (trace w')
    = (lockRequests (trace w) ++ map Mailbox.path folders)%list.
Proof.
  induction folders as [|folder rest IH]; intros i client w.
  - exists client, w. cbn. rewrite app_nil_r. auto.
  - cbn [folderLoop].
    destruct (processFolderEmails_contained (folder_outcomes so i) account folder w)
      as (w1 & Hrun & Hheld & Hreq).
    assert (Hstep : exists client1 w2,
               try_catch
                 (processFolderEmails (folder_outcomes so i) account folder ;;
                  if String.eqb (Mailbox.name folder) "INBOX"
                  then let! r := read_var running in
                       setupRealtimeMonitoring client account folder r
                  else ret client)%async
                 (fun _ => ret client) w = (Return client1, w2)
               /\ held w2 = held w1 /\ trace w2 = trace w1).
    { destruct (String.eqb (Mailbox.name folder) "INBOX").
      - eexists _, _. split; [|split].
        + apply try_catch_return. rewrite (bind_return _ _ _ _ _ Hrun). reflexivity.
        + reflexivity.
        + reflexivity.
      - eexists _, _. split; [|split].
        + apply try_catch_return. rewrite (bind_return _ _ _ _ _ Hrun). reflexivity.
        + reflexivity.
        + reflexivity. }
    destruct Hstep as (client1 & w2 & Hstep & Hheld2 & Htrace2).
    rewrite (bind_return _ _ _ _ _ Hstep).
    destruct (IH (S i) client1 w2) as (client' & w' & Hloop & Hheld' & Hreq').
    exists client', w'. split; [exact Hloop|]. split; [congruence|].
    rewrite Hreq', Htrace2, Hreq, <- app_assoc. reflexivity.
Qed.

(** C9: [processFolderEmails] catches every failure raised while a folder
    is processed (the lock is refused, the fetch fails, a message's
    pipeline fails on the existence query or on the index write) and
    leaves no lock held, whichever way it ends; and [connectAndSync], once
    connected, starts the processing of every folder of the account in
    listing order whatever happened in the folders before it. *)
Theorem folder_failures_isolated :
  (forall fo account folder w,
      exists w',
        processFolderEmails fo account folder w = (Return tt, w') /\
        held w' = held w /\
        lockRequests (trace w')
        = (lockRequests (trace w) ++ [Mailbox.path folder])%list) /\
  (forall so account w,
      connect_fault so = None ->
      exists w',
        connectAndSync so account w = (Return tt, w') /\
        held w' = held w /\
        lockRequests (trace w')
        = (lockRequests (trace w) ++ map Mailbox.path (foldersOf so))%list).
Proof.
  split; [exact processFolderEmails_contained|].
  intros so account w Hconn.
  set (w0 := record (ImapConnect (Account.id account)) w).
  assert (Hcall : call (ImapConnect (Account.id account)) (connect_fault so) w
                  = (Return tt, w0)) by (unfold call; now rewrite Hconn).
  unfold connectAndSync. rewrite (bind_return _ _ _ _ _ Hcall).
  unfold bind at 1. rewrite getAllFolders_eq.
  set (w1 := match list_result so with
             | inl _ => record ImapList w0
             | inr l => set_folderCache
                          (fun c => <[Account.id account := map folderInfo l]> c)
                          (record ImapList w0)
             end).
  assert (Hw1 : held w1 = held w /\ lockRequests (trace w1) = lockRequests (trace w)).
  { subst w1 w0. destruct (list_result so); cbn; rewrite !lockRequests_app; cbn;
      rewrite !app_nil_r; auto. }
  replace (match list_result so with
           | inl _ => (Return [fallbackInbox], record ImapList w0)
           | inr l => (Return (map folderInfo l),
                       set_folderCache
                         (fun c => <[Account.id account := map folderInfo l]> c)
                         (record ImapList w0))
           end) with (@Return (list Mailbox.t) (foldersOf so), w1)
    by (unfold foldersOf; subst w1; destruct (list_result so); reflexivity).
  unfold bind at 1, alloc.
  set (w2 := set_vars (fun vs => (vs ++ [true])%list) w1).
  destruct (folderLoop_visits_all so account (length (vars w1)) (foldersOf so) 0
              (MkClient [] []) w2) as (client & w3 & Hloop & Hheld & Hreq).
  rewrite (bind_return _ _ _ _ _ Hloop).
  eexists. split; [reflexivity|]. cbn. rewrite Hheld, Hreq. subst w2. cbn.
  destruct Hw1 as [-> ->]. auto.
Qed.

(** Two folders, the first of which fails on the index write: both are
    processed and no lock stays held. *)
Lemma folder_failures_isolated_witness :
  exists w',
    connectAndSync Sample.sync Sample.account emptyWorld = (Return tt, w') /\
    held w' = held emptyWorld /\
    lockRequests (trace w')
    = (lockRequests (trace emptyWorld) ++ map Mailbox.path (foldersOf Sample.sync))%list.
Proof.
  destruct folder_failures_isolated as [_ H].
  apply (H Sample.sync Sample.account emptyWorld). reflexivity.
Defined.

Example sync_after_write_failure :
  let w' := snd (connectAndSync Sample.sync Sample.account emptyWorld) in
  trace w' =
  [ImapConnect "A1"; ImapList;
   GetMailboxLock "INBOX"; FetchSince "INBOX";
   EsGet (fingerprint "<id-1>");
   GeminiPost "Interview Invite" "We would like to meet you";
   EsIndex (fingerprint "<id-1>")
     (emailDoc Sample.writeDown Sample.account Sample.message
        (Mailbox.Make "INBOX" "INBOX" [] (Some "inbox")) "<id-1>");
   LockRelease "INBOX";
   GetMailboxLock "Work"; FetchSince "Work";
   EsGet (fingerprint "<id-1>");
   GeminiPost "Interview Invite" "We would like to meet you";
   EsIndex (fingerprint "<id-1>")
     (emailDoc Sample.allGood Sample.account Sample.message
        (Mailbox.Make "Work" "Work" ["\HasNoChildren"] (Some "custom")) "<id-1>");
   SlackSend "Interview Invite" "hr@example.com" "A1";
   WebhookPost "Interview Invite" "hr@example.com" "A1";
   LockRelease "Work"]
  /\ held w' = [].
Proof. vm_compute. split; reflexivity. Qed.

(* ===================================================================== *)
(** ** The fallback folder *)
(* ===================================================================== *)

Lemma newDocsUntyped_refl (w : World) : newDocsUntyped w w.
Proof. intros id d H. now left. Qed.

Lemma newDocsUntyped_trans (a b c : World) :
  newDocsUntyped a b -> newDocsUntyped b c -> newDocsUntyped a c.
Proof.
  intros Hab Hbc id d H. destruct (Hbc id d H) as [H1|H1]; [|now right].
  exact (Hab id d H1).
Qed.

Lemma newDocsUntyped_same_store (w w' : World) :
  store w' = store w -> newDocsUntyped w w'.
Proof. intros E id d H. left. now rewrite <- E. Qed.

Lemma newDocsUntyped_index (o : Outcomes) (account : Account.t) (msg : Msg.t)
    (folder : Mailbox.t) (raw : string) (w : World) :
  Mailbox.specialUse folder = None ->
  newDocsUntyped w
    (set_store (fun s => <[fingerprint raw := emailDoc o account msg folder raw]> s) w).
Proof.
  intros Hnone id d. cbn [set_store store].
  destruct (decide (fingerprint raw = id)) as [->|Hne].
  - rewrite lookup_insert_eq. intros H. inversion H. right. exact Hnone.
  - rewrite lookup_insert_ne by exact Hne. now left.
Qed.

Lemma keeps_bind_post (R : World -> World -> Prop) {A B} (P : A -> Prop)
    (m : Async A) (k : A -> Async B) :
  (forall a b c, R a b -> R b c -> R a c) ->
  keeps R m ->
  (forall w a, fst (m w) = Return a -> P a) ->
  (forall a, P a -> keeps R (k a)) ->
  keeps R (bind m k).
Proof.
  intros Htrans Hm HP Hk w. unfold bind. specialize (Hm w). specialize (HP w).
  destruct (m w) as [[a|e] w1]; cbn [fst snd] in *; [|exact Hm].
  exact (Htrans _ _ _ Hm (Hk a (HP a eq_refl) w1)).
Qed.

Section Untyped.

Local Abbreviation untyped := (keeps newDocsUntyped).

Lemma untyped_same_store {A} (m : Async A) :
  (forall w, store (snd (m w)) = store w) -> untyped m.
Proof. intros H w. apply newDocsUntyped_same_store, H. Qed.

Lemma untyped_backfillLoop (account : Account.t) (folder : Mailbox.t)
    (msgs : list (Msg.t * Outcomes)) (fault : option JsError) (n : Z) :
  noSpecialUse folder -> untyped (backfillLoop account folder msgs fault n).
Proof.
  intros Hno.
  apply (keeps_backfillLoop newDocsUntyped newDocsUntyped_refl newDocsUntyped_trans
           (fun _ => True)
           (fun e w _ => newDocsUntyped_same_store w (record e w) eq_refl) noSpecialUse).
  - intros. now apply newDocsUntyped_index.
  - auto.
  - exact Hno.
Qed.

Lemma untyped_processFolderEmails (fo : FolderOutcomes) (account : Account.t)
    (folder : Mailbox.t) :
  noSpecialUse folder -> untyped (processFolderEmails fo account folder).
Proof.
  intros Hno. unfold processFolderEmails.
  apply (keeps_try_catch _ newDocsUntyped_trans);
    [|intros _; apply (keeps_ret _ newDocsUntyped_refl)].
  apply (keeps_bind _ newDocsUntyped_trans).
  - apply untyped_same_store. intros w. unfold getMailboxLock.
    destruct (lock_fault fo); reflexivity.
  - intros _. apply (keeps_try_finally _ newDocsUntyped_trans).
    + apply (keeps_bind _ newDocsUntyped_trans);
        [apply untyped_same_store; reflexivity|].
      intros _. apply (keeps_bind _ newDocsUntyped_trans);
        [now apply untyped_backfillLoop|].
      intros _. apply (keeps_ret _ newDocsUntyped_refl).
    + intros w. now apply newDocsUntyped_same_store.
Qed.

Lemma untyped_folderLoop (so : SyncOutcomes) (account : Account.t) (running : nat)
    (folders : list Mailbox.t) :
  Forall noSpecialUse folders ->
  forall i client, untyped (folderLoop so account running i folders client).
Proof.
  induction 1 as [|folder rest Hno Hrest IH]; intros i client; cbn [folderLoop].
  - apply (keeps_ret _ newDocsUntyped_refl).
  - apply (keeps_bind _ newDocsUntyped_trans); [|intros client'; apply IH].
    apply (keeps_try_catch _ newDocsUntyped_trans);
      [|intros _; apply (keeps_ret _ newDocsUntyped_refl)].
    apply (keeps_bind _ newDocsUntyped_trans);
      [now apply untyped_processFolderEmails|].
    intros _. destruct (String.eqb (Mailbox.name folder) "INBOX");
      [|apply (keeps_ret _ newDocsUntyped_refl)].
    apply untyped_same_store. reflexivity.
Qed.

Lemma untyped_connectAndSync (so : SyncOutcomes) (account : Account.t) (err : JsError) :
  list_result so = inl err -> untyped (connectAndSync so account).
Proof.
  intros Hlist. unfold connectAndSync.
  apply (keeps_bind _ newDocsUntyped_trans).
  { apply untyped_same_store. intros w. unfold call.
    destruct (connect_fault so); reflexivity. }
  intros _.
  apply (keeps_bind_post newDocsUntyped (fun folders => folders = [fallbackInbox])
           _ _ newDocsUntyped_trans).
  - apply untyped_same_store. intros w. rewrite getAllFolders_eq, Hlist. reflexivity.
  - intros w folders. rewrite getAllFolders_eq, Hlist. cbn [fst]. now inversion 1.
  - intros folders ->.
    apply (keeps_bind _ newDocsUntyped_trans); [apply untyped_same_store; reflexivity|].
    intros running.
    apply (keeps_bind _ newDocsUntyped_trans).
    { apply untyped_folderLoop. repeat constructor. }
    intros client. apply untyped_same_store. reflexivity.
Qed.

End Untyped.

(** C10: when listing the folders fails, [getAllFolders] does not throw:
    it returns the single entry [INBOX], with no flags and no
    [specialUse]; every document the pipeline writes for that folder has
    an undefined [folderType], and so has every document a
    [connectAndSync] adds to the index after a failed listing. *)
Theorem listing_failure_falls_back :
  (forall err account w,
      getAllFolders (inl err) account w = (Return [fallbackInbox], record ImapList w)) /\
  (Mailbox.name fallbackInbox = "INBOX" /\ Mailbox.flags fallbackInbox = [] /\
   Mailbox.specialUse fallbackInbox = None) /\
  (forall o account msg raw,
      Doc.folderType (emailDoc o account msg fallbackInbox raw) = None) /\
  (forall o account msg w id d,
      store (snd (handleEmail o account msg fallbackInbox w)) !! id = Some d ->
      store w !! id = Some d \/ Doc.folderType d = None) /\
  (forall so account err w id d,
      list_result so = inl err ->
      store (snd (connectAndSync so account w)) !! id = Some d ->
      store w !! id = Some d \/ Doc.folderType d = None).
Proof.
  split; [reflexivity|]. split; [auto|]. split; [reflexivity|]. split.
  - intros o account msg w.
    apply (keeps_handleEmail newDocsUntyped newDocsUntyped_refl newDocsUntyped_trans
             (fun _ => True)
             (fun e w _ => newDocsUntyped_same_store w (record e w) eq_refl)
             (fun folder => Mailbox.specialUse folder = None)).
    + intros. now apply newDocsUntyped_index.
    + auto.
    + reflexivity.
  - intros so account err w id d Hlist. now apply (untyped_connectAndSync so account err).
Qed.

(** An account whose listing fails: the one document indexed has no
    [folderType]. *)
Lemma listing_failure_falls_back_witness :
  let w' := snd (connectAndSync Sample.syncNoList Sample.account emptyWorld) in
  store w' !! fingerprint "<id-1>"
    = Some (emailDoc Sample.allGood Sample.account Sample.message fallbackInbox "<id-1>") /\
  (store emptyWorld !! fingerprint "<id-1>"
     = Some (emailDoc Sample.allGood Sample.account Sample.message fallbackInbox "<id-1>")
   \/ Doc.folderType
        (emailDoc Sample.allGood Sample.account Sample.message fallbackInbox "<id-1>")
      = None).
Proof.
  assert (E : store (snd (connectAndSync Sample.syncNoList Sample.account emptyWorld))
                !! fingerprint "<id-1>"
              = Some (emailDoc Sample.allGood Sample.account Sample.message
                        fallbackInbox "<id-1>")) by (vm_compute; reflexivity).
  split; [exact E|].
  destruct listing_failure_falls_back as (_ & _ & _ & _ & H).
  exact (H Sample.syncNoList Sample.account Sample.down emptyWorld _ _ eq_refl E).
Defined.

(* ===================================================================== *)
(** ** The live subscriber after a close *)
(* ===================================================================== *)

Lemma traceGrows_refl (w : World) : traceGrows w w.
Proof. intros e H. exact H. Qed.

Lemma traceGrows_trans (a b c : World) : traceGrows a b -> traceGrows b c -> traceGrows a c.
Proof. intros Hab Hbc e H. apply Hbc, Hab, H. Qed.

Lemma traceGrows_record (e : Event) (w : World) : traceGrows w (record e w).
Proof. intros x H. cbn. apply in_or_app. now left. Qed.

Lemma traceGrows_same_trace (w w' : World) : trace w' = trace w -> traceGrows w w'.
Proof. intros E e H. now rewrite E. Qed.

Lemma closeHandler_eq (h : CloseHandler) (w : World) :
  closeHandler h w =
  (Return tt,
   record (ReconnectIn 10000 (Account.id (ch_account h)))
     (set_vars (fun vs => <[ch_running h := false]> vs) w)).
Proof. reflexivity. Qed.

Lemma read_var_eq (l : nat) (b : bool) (w : World) :
  vars w !! l = Some b -> read_var l w = (Return b, w).
Proof. intros H. unfold read_var. now rewrite H. Qed.

(** The guard of the listener does return at once when the binding it
    reads is [false]. *)
Lemma existsHandler_guard (h : ExistsHandler) (xo : ExistsOutcomes) (w : World) :
  vars w !! eh_running h = Some false -> existsHandler h xo w = (Return tt, w).
Proof.
  intros H. unfold existsHandler.
  now rewrite (bind_return _ _ _ _ _ (read_var_eq _ _ _ H)).
Qed.

(** A listener whose binding is [true] asks for the mailbox lock. *)
Lemma existsHandler_running (h : ExistsHandler) (xo : ExistsOutcomes) (w : World) :
  vars w !! eh_running h = Some true ->
  In (GetMailboxLock (Mailbox.path (eh_folder h))) (trace (snd (existsHandler h xo w))).
Proof.
  intros H. unfold existsHandler.
  rewrite (bind_return _ _ _ _ _ (read_var_eq _ _ _ H)). cbn [negb].
  unfold bind at 1, getMailboxLock.
  destruct (ex_lock_fault xo) as [err|]; cbn [snd].
  - cbn. apply in_or_app. right. now left.
  - unfold try_finally.
    set (w0 := set_held _ _).
    set (body := (let! uidNext := client_status (ex_status xo) _ in _)%async).
    assert (Hbody : keeps traceGrows body).
    { apply (keeps_bind _ traceGrows_trans).
      - intros w1. unfold client_status. destruct (ex_status xo); apply traceGrows_record.
      - intros [uidNext|]; [|apply (keeps_ret _ traceGrows_refl)].
        destruct (_ =? 0)%Z; [apply (keeps_ret _ traceGrows_refl)|].
        apply (keeps_bind _ traceGrows_trans); [intros w1; apply traceGrows_record|].
        intros _.
        apply (keeps_liveLoop traceGrows traceGrows_refl traceGrows_trans
                 (fun _ => True) (fun e w _ => traceGrows_record e w) (fun _ => True));
          auto.
        intros. now apply traceGrows_same_trace. }
    specialize (Hbody w0). destruct (body w0) as [r w1]. cbn [snd] in *.
    cbn. apply in_or_app. left. apply Hbody. subst w0. cbn.
    apply in_or_app. right. now left.
Qed.

(** The [close] listener writes its own binding only: a listener for
    [exists] that reads another binding goes on as before. *)
Lemma existsHandler_after_close (eh : ExistsHandler) (ch : CloseHandler)
    (xo : ExistsOutcomes) (w : World) :
  eh_running eh <> ch_running ch ->
  vars w !! eh_running eh = Some true ->
  In (GetMailboxLock (Mailbox.path (eh_folder eh)))
     (trace (snd (existsHandler eh xo (snd (closeHandler ch w))))).
Proof.
  intros Hne Hrun. apply existsHandler_running. rewrite closeHandler_eq. cbn.
  rewrite list_lookup_insert_ne by auto. exact Hrun.
Qed.

(** C2, at the failing input: account [A1] has been synchronised, its
    connection reports [close], and then an [exists] event is delivered.
    The [close] listener has set its own [running] to [false] and scheduled
    the reconnect, but the [running] the [exists] listener reads is still
    [true]: the listener takes the mailbox lock, asks for the status and
    fetches the newest message, which is then indexed. *)
Theorem exists_after_close_is_handled :
  exists client eh ch,
    clients Sample.live !! "A1" = Some client /\
    on_exists client = [eh] /\
    on_close client = [ch] /\
    let closed := snd (closeHandler ch Sample.live) in
    trace closed = (trace Sample.live ++ [ReconnectIn 10000 "A1"])%list /\
    vars closed !! ch_running ch = Some false /\
    vars closed !! eh_running eh = Some true /\
    existsHandler eh Sample.newMail closed <> (Return tt, closed) /\
    trace (snd (existsHandler eh Sample.newMail closed)) =
    (trace closed ++
     [GetMailboxLock "INBOX"; ImapStatus "INBOX"; FetchUid "INBOX" 41;
      EsGet (fingerprint "<id-2>");
      GeminiPost "Re: Interview Invite" "";
      EsIndex (fingerprint "<id-2>")
        (emailDoc Sample.geminiDown Sample.account Sample.message2 Sample.inbox "<id-2>");
      LockRelease "INBOX"])%list.
Proof.
  eexists _, _, _.
  split; [vm_compute; reflexivity|].
  split; [reflexivity|]. split; [reflexivity|].
  cbv zeta. split; [reflexivity|].
  split; [vm_compute; reflexivity|].
  split; [vm_compute; reflexivity|].
  split.
  - intros H.
    assert (Ht : trace (snd (existsHandler _ Sample.newMail
                               (snd (closeHandler _ Sample.live))))
                 = trace (snd (closeHandler _ Sample.live)))
      by (rewrite H; reflexivity).
    vm_compute in Ht. discriminate Ht.
  - vm_compute. reflexivity.
Qed.

(* ===================================================================== *)
(** * Further properties of the synchronisation engine *)
(* ===================================================================== *)

(** ** The four ways a run of the pipeline ends *)

Lemma trace_notifiedWorld_eq (o : Outcomes) (l s f a : string) (w : World) :
  trace (notifiedWorld o l s f a w) = (trace w ++ notifications o l s f a)%list.
Proof.
  unfold notifiedWorld, notifications. destruct (String.eqb l "Interested").
  - destruct (slack_fault o); cbn; [reflexivity|]. now rewrite <- app_assoc.
  - now rewrite app_nil_r.
Qed.

Lemma handleEmail_cases (o : Outcomes) (account : Account.t) (msg : Msg.t)
    (folder : Mailbox.t) (raw : string) (w : World) :
  envelope_get Msg.messageId msg = Some raw -> raw <> "" ->
  let fp := fingerprint raw in
  let doc := emailDoc o account msg folder raw in
  let subject := default "" (envelope_get Msg.subject msg) in
  let w1 := record (EsGet fp) w in
  let w3 := record (EsIndex fp doc)
              (record (GeminiPost subject (default "" (Msg.source msg))) w1) in
  (handleEmail o account msg folder w = (Return tt, w1)
   /\ get_fault o = None /\ is_Some (store w !! fp)) \/
  (exists err, handleEmail o account msg folder w = (Throw err, w1)
               /\ get_fault o = Some err /\ is404 err = false) \/
  (exists err, handleEmail o account msg folder w = (Throw err, w3)
               /\ index_fault o = Some err) \/
  (handleEmail o account msg folder w
   = (Return tt,
      notifiedWorld o (resolvedLabel (gemini o)) subject
        (addresses (envelope_get Msg.from msg)) (Account.id account)
        (set_store (fun s => <[fp := doc]> s) w3))
   /\ index_fault o = None
   /\ (get_fault o = None -> store w !! fp = None)).
Proof.
  intros Hid Hne. cbv zeta.
  rewrite (handleEmail_eq _ _ _ _ raw w Hid Hne), es_get_eq, indexAndNotify_eq. cbv zeta.
  destruct (get_fault o) as [err|] eqn:Hget.
  - destruct (is404 err) eqn:H404.
    + destruct (index_fault o) as [ierr|]; [right; right; left; eauto|].
      right; right; right. repeat split. discriminate.
    + right; left. eauto.
  - destruct (store w !! fingerprint raw) as [d|] eqn:Hd.
    + left. eauto.
    + change (is404 notFound) with true. cbv iota.
      destruct (index_fault o) as [ierr|]; [right; right; left; eauto|].
      right; right; right. auto.
Qed.

Lemma handleEmail_trace (o : Outcomes) (account : Account.t) (msg : Msg.t)
    (folder : Mailbox.t) (raw : string) (w : World) :
  envelope_get Msg.messageId msg = Some raw -> raw <> "" ->
  exists rest,
    trace (snd (handleEmail o account msg folder w))
    = (trace w ++ EsGet (fingerprint raw) :: rest)%list /\
    forallb isPipelineCall rest = true.
Proof.
  intros Hid Hne.
  destruct (handleEmail_cases o account msg folder raw w Hid Hne)
    as [(-> & _)|[(err & -> & _)|[(err & -> & _)|(-> & _)]]]; cbn [snd].
  - exists []. split; reflexivity.
  - exists []. split; reflexivity.
  - eexists. split.
    + cbn. rewrite <- !app_assoc. reflexivity.
    + reflexivity.
  - rewrite trace_notifiedWorld_eq. cbn. rewrite <- !app_assoc. cbn.
    eexists. split; [reflexivity|]. cbn. unfold notifications.
    destruct (String.eqb _ "Interested"); [|reflexivity].
    destruct (slack_fault o); reflexivity.
Qed.

Lemma handleEmail_rest_of_world (o : Outcomes) (account : Account.t) (msg : Msg.t)
    (folder : Mailbox.t) (w : World) :
  let w' := snd (handleEmail o account msg folder w) in
  held w' = held w /\ vars w' = vars w /\ clients w' = clients w /\
  folderCache w' = folderCache w.
Proof.
  cbv zeta. destruct (envelope_get Msg.messageId msg) as [raw|] eqn:Hid.
  - destruct (string_dec raw "") as [->|Hne].
    + rewrite handleEmail_without_id by auto. auto.
    + destruct (handleEmail_cases o account msg folder raw w Hid Hne)
        as [(-> & _)|[(err & -> & _)|[(err & -> & _)|(-> & _)]]]; cbn [snd]; auto.
      unfold notifiedWorld. destruct (String.eqb _ "Interested"); [|auto].
      destruct (slack_fault o); auto.
  - rewrite handleEmail_without_id by auto. auto.
Qed.

(** ** Classification labels *)

Lemma resolvedLabel_in_LABELS (reply : GeminiReply) : In (resolvedLabel reply) LABELS.
Proof.
  destruct reply as [e|text|]; cbn [resolvedLabel]; [cbn; tauto| |cbn; tauto].
  destruct (find _ LABELS) as [l|] eqn:E; cbn [default from_option id].
  - apply find_some in E. apply E.
  - cbn. tauto.
Qed.

(** X1: [categorizeEmail] always completes with one of the five labels;
    an answer that is a label up to letter case and surrounding white space
    gives that label; any other answer, or none, gives [Out of Office]. *)
Theorem categorizeEmail_returns_a_label :
  (forall reply subject body w,
      exists l,
        categorizeEmail reply subject body w
        = (Return l, record (GeminiPost subject body) w) /\ In l LABELS) /\
  (forall l text subject body w,
      In l LABELS ->
      JsString.toLowerCase (JsString.trim text) = JsString.toLowerCase l ->
      fst (categorizeEmail (ReplyText (Some text)) subject body w) = Return l) /\
  (forall text subject body w,
      (forall l, In l LABELS ->
                 JsString.toLowerCase (JsString.trim (default "" text))
                 <> JsString.toLowerCase l) ->
      fst (categorizeEmail (ReplyText text) subject body w) = Return "Out of Office").
Proof.
  split; [|split].
  - intros reply subject body w. rewrite categorizeEmail_eq.
    eexists. split; [reflexivity | apply resolvedLabel_in_LABELS].
  - intros l text subject body w Hin Heq. rewrite categorizeEmail_eq.
    cbn [fst resolvedLabel default from_option id]. rewrite Heq.
    unfold LABELS in Hin. cbn [In] in Hin.
    repeat (destruct Hin as [<-|Hin]; [reflexivity|]). contradiction.
  - intros text subject body w Hnone. rewrite categorizeEmail_eq.
    cbn [fst resolvedLabel].
    destruct (find _ LABELS) as [l|] eqn:E; [|reflexivity].
    apply find_some in E. destruct E as [Hin Heq].
    apply String.eqb_eq in Heq. symmetry in Heq. now apply Hnone in Heq.
Qed.

(** The answer [  MEETING booked ] is read as the label [Meeting Booked]. *)
Lemma categorizeEmail_returns_a_label_witness :
  fst (categorizeEmail (ReplyText (Some "  MEETING booked ")) "s" "b" emptyWorld)
  = Return "Meeting Booked" /\
  fst (categorizeEmail (ReplyText (Some "Not sure")) "s" "b" emptyWorld)
  = Return "Out of Office".
Proof.
  destruct categorizeEmail_returns_a_label as (_ & Hlabel & Hother). split.
  - apply Hlabel; [cbn; tauto | reflexivity].
  - apply Hother. intros l Hin. unfold LABELS in Hin. cbn [In] in Hin.
    repeat (destruct Hin as [<-|Hin]; [discriminate|]). contradiction.
Defined.

(** ** Messages without a usable identifier *)

(** X2: [handleEmail] leaves the world exactly as it found it, without
    any external call, if and only if the message has no envelope, no
    message identifier or an empty one; for every other message its first
    call is the existence query for the fingerprint. *)
Theorem handleEmail_skips_exactly_without_id (o : Outcomes) (account : Account.t)
    (msg : Msg.t) (folder : Mailbox.t) (w : World) :
  (handleEmail o account msg folder w = (Return tt, w)
   <-> envelope_get Msg.messageId msg = None \/ envelope_get Msg.messageId msg = Some "") /\
  (forall raw,
      envelope_get Msg.messageId msg = Some raw -> raw <> "" ->
      exists rest,
        trace (snd (handleEmail o account msg folder w))
        = (trace w ++ EsGet (fingerprint raw) :: rest)%list).
Proof.
  assert (Hcall : forall raw,
             envelope_get Msg.messageId msg = Some raw -> raw <> "" ->
             exists rest,
               trace (snd (handleEmail o account msg folder w))
               = (trace w ++ EsGet (fingerprint raw) :: rest)%list).
  { intros raw Hid Hne.
    destruct (handleEmail_trace o account msg folder raw w Hid Hne) as (rest & H & _).
    eauto. }
  split; [|exact Hcall]. split.
  - intros Hrun. destruct (envelope_get Msg.messageId msg) as [raw|] eqn:Hid; [|auto].
    destruct (string_dec raw "") as [->|Hne]; [auto|].
    destruct (Hcall raw eq_refl Hne) as (rest & Htrace).
    rewrite Hrun in Htrace. cbn [snd] in Htrace.
    apply (f_equal (@length Event)) in Htrace. rewrite length_app in Htrace.
    cbn in Htrace. lia.
  - apply handleEmail_without_id.
Qed.

(** A message without envelope is skipped; the scenario message is not. *)
Lemma handleEmail_skips_exactly_without_id_witness :
  handleEmail Sample.allGood Sample.account (Msg.Make None (Some "body")) Sample.inbox
    emptyWorld = (Return tt, emptyWorld) /\
  exists rest,
    trace (snd (handleEmail Sample.allGood Sample.account Sample.message Sample.inbox
                  emptyWorld))
    = (trace emptyWorld ++ EsGet (fingerprint "<id-1>") :: rest)%list.
Proof.
  split.
  - apply (handleEmail_skips_exactly_without_id Sample.allGood Sample.account
             (Msg.Make None (Some "body")) Sample.inbox emptyWorld). now left.
  - apply (handleEmail_skips_exactly_without_id Sample.allGood Sample.account
             Sample.message Sample.inbox emptyWorld); [reflexivity | discriminate].
Defined.

Section BlankIdentifiers.
Import JsString.

Lemma removeAngleBrackets_blank (s : string) :
  allChars (fun c => isAngleBracket c || isWhiteSpace c) s = true ->
  allChars isWhiteSpace (removeAngleBrackets s) = true.
Proof.
  induction s as [|c r IH]; [reflexivity|]. cbn [allChars removeAngleBrackets].
  intros H. apply andb_true_iff in H. destruct H as [Hc Hr].
  unfold isAngleBracket in Hc.
  destruct (Ascii.eqb c "<" || Ascii.eqb c ">") eqn:E; [now apply IH|].
  cbn [allChars]. cbn [orb] in Hc. rewrite Hc. now apply IH.
Qed.

Lemma trimStart_blank (s : string) :
  allChars isWhiteSpace s = true -> trimStart s = "".
Proof.
  induction s as [|c r IH]; [reflexivity|]. cbn [allChars trimStart].
  intros H. apply andb_true_iff in H. destruct H as [-> Hr]. now apply IH.
Qed.

End BlankIdentifiers.

(** X3: a raw identifier made only of angle brackets and white space is
    normalised to the empty string, so all such identifiers have the
    fingerprint of the empty string; when it is not empty itself the
    message is not skipped but looked up (and then indexed) under that one
    id. *)
Theorem blank_identifiers_share_one_fingerprint (raw : string) :
  allChars (fun c => isAngleBracket c || JsString.isWhiteSpace c) raw = true ->
  messageIdClean raw = "" /\
  fingerprint raw = "da39a3ee5e6b4b0d3255bfef95601890afd80709" /\
  (raw <> "" ->
   forall o account msg folder w,
     envelope_get Msg.messageId msg = Some raw ->
     exists rest,
       trace (snd (handleEmail o account msg folder w))
       = (trace w ++ EsGet "da39a3ee5e6b4b0d3255bfef95601890afd80709" :: rest)%list).
Proof.
  intros Hblank.
  assert (Hclean : messageIdClean raw = "").
  { unfold messageIdClean, JsString.trim.
    now rewrite (trimStart_blank _ (removeAngleBrackets_blank _ Hblank)). }
  assert (Hfp : fingerprint raw = "da39a3ee5e6b4b0d3255bfef95601890afd80709").
  { unfold fingerprint. rewrite Hclean. vm_compute. reflexivity. }
  split; [exact Hclean|]. split; [exact Hfp|].
  intros Hne o account msg folder w Hid.
  destruct (handleEmail_trace o account msg folder raw w Hid Hne) as (rest & H & _).
  rewrite Hfp in H. eauto.
Qed.

(** The identifier [<> ] *)
Lemma blank_identifiers_share_one_fingerprint_witness :
  messageIdClean "<> " = "" /\
  fingerprint "<> " = "da39a3ee5e6b4b0d3255bfef95601890afd80709".
Proof.
  destruct (blank_identifiers_share_one_fingerprint "<> " eq_refl) as (H1 & H2 & _).
  split; assumption.
Defined.

(** ** The index write and the notifications *)

Lemma notifierCalls_app (a b : list Event) :
  notifierCalls (a ++ b)%list = (notifierCalls a ++ notifierCalls b)%list.
Proof. apply List.filter_app. Qed.

Lemma notifierCalls_notifications (o : Outcomes) (l s f a : string) :
  notifierCalls (notifications o l s f a) = notifications o l s f a.
Proof.
  unfold notifications. destruct (String.eqb l "Interested"); [|reflexivity].
  destruct (slack_fault o); reflexivity.
Qed.

(** What one run of the pipeline adds to the notifier calls. *)
Lemma handleEmail_notifierCalls (o : Outcomes) (account : Account.t) (msg : Msg.t)
    (folder : Mailbox.t) (w : World) :
  let w' := snd (handleEmail o account msg folder w) in
  notifierCalls (trace w') = notifierCalls (trace w) \/
  (fst (handleEmail o account msg folder w) = Return tt /\
   index_fault o = None /\
   notifierCalls (trace w')
   = (notifierCalls (trace w)
      ++ notifications o (resolvedLabel (gemini o))
           (default "" (envelope_get Msg.subject msg))
           (addresses (envelope_get Msg.from msg)) (Account.id account))%list).
Proof.
  cbv zeta. destruct (envelope_get Msg.messageId msg) as [raw|] eqn:Hid.
  - destruct (string_dec raw "") as [->|Hne].
    + rewrite handleEmail_without_id by auto. now left.
    + destruct (handleEmail_cases o account msg folder raw w Hid Hne)
        as [(-> & _)|[(err & -> & _)|[(err & -> & _)|(-> & Hix & _)]]]; cbn [fst snd].
      * left. cbn. rewrite notifierCalls_app. cbn. apply app_nil_r.
      * left. cbn. rewrite notifierCalls_app. cbn. apply app_nil_r.
      * left. cbn. rewrite !notifierCalls_app. cbn. now rewrite !app_nil_r.
      * right. split; [reflexivity|]. split; [exact Hix|].
        rewrite trace_notifiedWorld_eq, notifierCalls_app, notifierCalls_notifications.
        cbn. rewrite !notifierCalls_app. cbn. now rewrite !app_nil_r.
  - rewrite handleEmail_without_id by auto. now left.
Qed.

(** X4: when the index write fails, [handleEmail] fails with the error of
    the write, the store is as before and no notifier is called; this
    holds for a message not yet indexed, after the existence query and the
    classifier call that precede the write. *)
Theorem index_write_failure_propagates (o : Outcomes) (account : Account.t)
    (msg : Msg.t) (folder : Mailbox.t) (raw : string) (w : World) (err : JsError) :
  envelope_get Msg.messageId msg = Some raw -> raw <> "" ->
  get_fault o = None -> store w !! fingerprint raw = None ->
  index_fault o = Some err ->
  exists w',
    handleEmail o account msg folder w = (Throw err, w') /\
    store w' = store w /\
    notifierCalls (trace w') = notifierCalls (trace w) /\
    trace w'
    = (trace w ++
       [EsGet (fingerprint raw);
        GeminiPost (default "" (envelope_get Msg.subject msg)) (default "" (Msg.source msg));
        EsIndex (fingerprint raw) (emailDoc o account msg folder raw)])%list.
Proof.
  intros Hid Hne Hget Habsent Hix.
  destruct (handleEmail_cases o account msg folder raw w Hid Hne)
    as [(_ & _ & [d Hd])|[(e & _ & He & _)|[(e & Hrun & He)|(_ & He & _)]]];
    try congruence.
  rewrite Hix in He. inversion He. subst e.
  eexists. split; [exact Hrun|]. split; [reflexivity|]. split.
  - cbn. rewrite !notifierCalls_app. cbn. now rewrite !app_nil_r.
  - cbn. now rewrite <- !app_assoc.
Qed.

(** The scenario message while the index store refuses the write. *)
Lemma index_write_failure_propagates_witness :
  exists w',
    handleEmail Sample.writeDown Sample.account Sample.message Sample.inbox emptyWorld
    = (Throw Sample.down, w') /\
    store w' = store emptyWorld /\
    notifierCalls (trace w') = notifierCalls (trace emptyWorld) /\
    trace w'
    = (trace emptyWorld ++
       [EsGet (fingerprint "<id-1>");
        GeminiPost "Interview Invite" "We would like to meet you";
        EsIndex (fingerprint "<id-1>")
          (emailDoc Sample.writeDown Sample.account Sample.message Sample.inbox
             "<id-1>")])%list.
Proof.
  apply (index_write_failure_propagates Sample.writeDown Sample.account Sample.message
           Sample.inbox "<id-1>" emptyWorld Sample.down); try reflexivity. discriminate.
Defined.

(** X5: one run of [handleEmail] calls the notifiers at most once each,
    the chat notifier before the webhook sink and the webhook sink never
    without the chat notifier; it calls neither when the resolved label is
    not [Interested], when the index write fails or when [handleEmail]
    does not complete normally. *)
Theorem notifier_calls_per_message (o : Outcomes) (account : Account.t) (msg : Msg.t)
    (folder : Mailbox.t) (w : World) :
  let w' := snd (handleEmail o account msg folder w) in
  let subject := default "" (envelope_get Msg.subject msg) in
  let sender := addresses (envelope_get Msg.from msg) in
  (exists ns,
      notifierCalls (trace w') = (notifierCalls (trace w) ++ ns)%list /\
      (ns = [] \/
       ns = [SlackSend subject sender (Account.id account)] \/
       ns = [SlackSend subject sender (Account.id account);
             WebhookPost subject sender (Account.id account)])) /\
  (resolvedLabel (gemini o) <> "Interested" ->
   notifierCalls (trace w') = notifierCalls (trace w)) /\
  (index_fault o <> None -> notifierCalls (trace w') = notifierCalls (trace w)) /\
  (fst (handleEmail o account msg folder w) <> Return tt ->
   notifierCalls (trace w') = notifierCalls (trace w)).
Proof.
  cbv zeta.
  destruct (handleEmail_notifierCalls o account msg folder w) as [H|(Hret & Hix & H)].
  - repeat split; try (intros _; exact H). exists []. rewrite app_nil_r. auto.
  - split; [|split; [|split]].
    + eexists. split; [exact H|]. unfold notifications.
      destruct (String.eqb _ "Interested"); [|auto]. destruct (slack_fault o); auto.
    + intros Hlabel. rewrite H. unfold notifications.
      destruct (String.eqb _ "Interested") eqn:E; [|apply app_nil_r].
      apply String.eqb_eq in E. contradiction.
    + intros Hbad. contradiction.
    + intros Hbad. contradiction.
Qed.

(** The scenario message, classified [Spam] because the classifier is down. *)
Lemma notifier_calls_per_message_witness :
  notifierCalls
    (trace (snd (handleEmail Sample.geminiDown Sample.account Sample.message Sample.inbox
                   emptyWorld)))
  = notifierCalls (trace emptyWorld).
Proof.
  destruct (notifier_calls_per_message Sample.geminiDown Sample.account Sample.message
              Sample.inbox emptyWorld) as (_ & H & _).
  apply H. discriminate.
Defined.

(** X6: a run of [handleEmail] changes no document other than the one
    stored under the fingerprint of the message, removes no document, and,
    when the existence query is answered truthfully, leaves every document
    that is already stored exactly as it is. *)
Theorem handleEmail_touches_one_document (o : Outcomes) (account : Account.t)
    (msg : Msg.t) (folder : Mailbox.t) (w : World) :
  let w' := snd (handleEmail o account msg folder w) in
  (forall id,
      (forall raw, envelope_get Msg.messageId msg = Some raw -> id <> fingerprint raw) ->
      store w' !! id = store w !! id) /\
  storeKeeps w w' /\
  (get_fault o = None ->
   forall id d, store w !! id = Some d -> store w' !! id = Some d).
Proof.
  cbv zeta. destruct (envelope_get Msg.messageId msg) as [raw|] eqn:Hid.
  - destruct (string_dec raw "") as [->|Hne].
    + rewrite handleEmail_without_id by auto. repeat split; auto. intros id H. exact H.
    + destruct (handleEmail_cases o account msg folder raw w Hid Hne)
        as [(-> & _)|[(err & -> & _)|[(err & -> & _)|(-> & _ & Habsent)]]]; cbn [snd];
        try (repeat split; auto; intros id H; exact H).
      unfold storeKeeps. rewrite store_notifiedWorld.
      cbn [set_store store record set_trace].
      split; [|split].
      * intros id Hother. apply lookup_insert_ne. intros E. exact (Hother raw eq_refl (eq_sym E)).
      * intros id H. destruct (decide (fingerprint raw = id)) as [<-|Hneq].
        -- rewrite lookup_insert_eq. eauto.
        -- now rewrite lookup_insert_ne.
      * intros Hget id d Hd. destruct (decide (fingerprint raw = id)) as [<-|Hneq].
        -- rewrite (Habsent Hget) in Hd. discriminate.
        -- now rewrite lookup_insert_ne.
  - rewrite handleEmail_without_id by auto. repeat split; auto. intros id H. exact H.
Qed.

(** A second message leaves the document of the first one in place. *)
Lemma handleEmail_touches_one_document_witness :
  let w1 := snd (handleEmail Sample.allGood Sample.account Sample.message Sample.inbox
                   emptyWorld) in
  store (snd (handleEmail Sample.geminiDown Sample.account Sample.message2 Sample.inbox w1))
    !! fingerprint "<id-1>"
  = Some (emailDoc Sample.allGood Sample.account Sample.message Sample.inbox "<id-1>").
Proof.
  cbv zeta.
  destruct (handleEmail_touches_one_document Sample.geminiDown Sample.account
              Sample.message2 Sample.inbox
              (snd (handleEmail Sample.allGood Sample.account Sample.message Sample.inbox
                      emptyWorld))) as (_ & _ & H).
  apply H; [reflexivity|]. vm_compute. reflexivity.
Defined.

(* ===================================================================== *)
(** ** Relations that only depend on the index and on the bindings *)
(* ===================================================================== *)

Section Frame.
Variable R : World -> World -> Prop.
Hypothesis R_refl : forall w, R w w.
Hypothesis R_trans : forall a b c, R a b -> R b c -> R a c.
Hypothesis R_frame : forall w w', store w' = store w -> vars w' = vars w -> R w w'.
Hypothesis R_index : forall o account msg folder raw w,
  R w (set_store (fun s => <[fingerprint raw := emailDoc o account msg folder raw]> s) w).

Lemma frame_record (e : Event) (w : World) : R w (record e w).
Proof. now apply R_frame. Qed.

Lemma frame_backfillLoop (account : Account.t) (folder : Mailbox.t)
    (msgs : list (Msg.t * Outcomes)) (fault : option JsError) (n : Z) :
  keeps R (backfillLoop account folder msgs fault n).
Proof.
  apply (keeps_backfillLoop R R_refl R_trans (fun _ => True)
           (fun e w _ => frame_record e w) (fun _ => True)); auto.
Qed.

Lemma frame_liveLoop (account : Account.t) (folder : Mailbox.t)
    (msgs : list (Msg.t * Outcomes)) (fault : option JsError) :
  keeps R (liveLoop account folder msgs fault).
Proof.
  apply (keeps_liveLoop R R_refl R_trans (fun _ => True)
           (fun e w _ => frame_record e w) (fun _ => True)); auto.
Qed.

Lemma frame_getMailboxLock (fault : option JsError) (path : string) :
  keeps R (getMailboxLock fault path).
Proof. intros w. unfold getMailboxLock. destruct fault; now apply R_frame. Qed.

Lemma frame_processFolderEmails (fo : FolderOutcomes) (account : Account.t)
    (folder : Mailbox.t) :
  keeps R (processFolderEmails fo account folder).
Proof.
  unfold processFolderEmails.
  apply (keeps_try_catch _ R_trans); [|intros _; apply (keeps_ret _ R_refl)].
  apply (keeps_bind _ R_trans); [apply frame_getMailboxLock|].
  intros _. apply (keeps_try_finally _ R_trans).
  - apply (keeps_bind _ R_trans); [intros w; apply frame_record|].
    intros _. apply (keeps_bind _ R_trans); [apply frame_backfillLoop|].
    intros _. apply (keeps_ret _ R_refl).
  - intros w. now apply R_frame.
Qed.

Lemma frame_existsHandler (h : ExistsHandler) (xo : ExistsOutcomes) :
  keeps R (existsHandler h xo).
Proof.
  unfold existsHandler.
  apply (keeps_bind _ R_trans); [intros w; apply R_refl|].
  intros running. destruct (negb running); [apply (keeps_ret _ R_refl)|].
  apply (keeps_bind _ R_trans); [apply frame_getMailboxLock|].
  intros _. apply (keeps_try_finally _ R_trans).
  - apply (keeps_bind _ R_trans).
    + intros w. unfold client_status. destruct (ex_status xo); apply frame_record.
    + intros [uidNext|]; [|apply (keeps_ret _ R_refl)].
      destruct (_ =? 0)%Z; [apply (keeps_ret _ R_refl)|].
      apply (keeps_bind _ R_trans); [intros w; apply frame_record|].
      intros _. apply frame_liveLoop.
  - intros w. now apply R_frame.
Qed.

Hypothesis R_store : forall w w', store w' = store w -> R w w'.

Lemma frame_folderLoop (so : SyncOutcomes) (account : Account.t) (running : nat)
    (folders : list Mailbox.t) :
  forall i client, keeps R (folderLoop so account running i folders client).
Proof.
  induction folders as [|folder rest IH]; intros i client; cbn [folderLoop].
  - apply (keeps_ret _ R_refl).
  - apply (keeps_bind _ R_trans); [|intros client'; apply IH].
    apply (keeps_try_catch _ R_trans); [|intros _; apply (keeps_ret _ R_refl)].
    apply (keeps_bind _ R_trans); [apply frame_processFolderEmails|].
    intros _. destruct (String.eqb (Mailbox.name folder) "INBOX");
      [|apply (keeps_ret _ R_refl)].
    intros w. now apply R_store.
Qed.

Lemma frame_connectAndSync (so : SyncOutcomes) (account : Account.t) :
  keeps R (connectAndSync so account).
Proof.
  unfold connectAndSync.
  apply (keeps_bind _ R_trans).
  { intros w. unfold call. destruct (connect_fault so); apply frame_record. }
  intros _. apply (keeps_bind _ R_trans).
  { intros w. rewrite getAllFolders_eq. destruct (list_result so); now apply R_store. }
  intros folders. apply (keeps_bind _ R_trans); [intros w; now apply R_store|].
  intros running. apply (keeps_bind _ R_trans); [apply frame_folderLoop|].
  intros client. intros w. now apply R_store.
Qed.

End Frame.

Lemma storeKeeps_refl (w : World) : storeKeeps w w.
Proof. intros id H. exact H. Qed.

Lemma storeKeeps_trans (a b c : World) : storeKeeps a b -> storeKeeps b c -> storeKeeps a c.
Proof. intros Hab Hbc id H. apply Hbc, Hab, H. Qed.

Lemma storeKeeps_same (w w' : World) : store w' = store w -> storeKeeps w w'.
Proof. intros E id H. now rewrite E. Qed.

Lemma storeKeeps_index (id : string) (d : Doc.t) (w : World) :
  storeKeeps w (set_store (fun s => <[id := d]> s) w).
Proof.
  intros k H. cbn [store set_store]. destruct (decide (id = k)) as [->|Hne].
  - rewrite lookup_insert_eq. eauto.
  - now rewrite lookup_insert_ne.
Qed.

(** X7: the synchronisation never removes a document from the index:
    every id present before a [connectAndSync], a [processFolderEmails] or
    a run of the [exists] listener is still present after it, whatever the
    collaborators answer; the [close] listener does not touch the index. *)
Theorem sync_never_deletes :
  (forall so account w, storeKeeps w (snd (connectAndSync so account w))) /\
  (forall fo account folder w, storeKeeps w (snd (processFolderEmails fo account folder w))) /\
  (forall h xo w, storeKeeps w (snd (existsHandler h xo w))) /\
  (forall h w, store (snd (closeHandler h w)) = store w).
Proof.
  split; [|split; [|split]].
  - intros so account.
    apply (frame_connectAndSync storeKeeps storeKeeps_refl storeKeeps_trans).
    + intros w w' E _. now apply storeKeeps_same.
    + intros. apply storeKeeps_index.
    + apply storeKeeps_same.
  - intros fo account folder.
    apply (frame_processFolderEmails storeKeeps storeKeeps_refl storeKeeps_trans).
    + intros w w' E _. now apply storeKeeps_same.
    + intros. apply storeKeeps_index.
  - intros h xo.
    apply (frame_existsHandler storeKeeps storeKeeps_refl storeKeeps_trans).
    + intros w w' E _. now apply storeKeeps_same.
    + intros. apply storeKeeps_index.
  - reflexivity.
Qed.

(* ===================================================================== *)
(** ** The backfill loop *)
(* ===================================================================== *)

Lemma pauses_app (a b : list Event) : pauses (a ++ b)%list = pauses a + pauses b.
Proof. unfold pauses. now rewrite List.filter_app, length_app. Qed.

Lemma pauses_pipeline (evs : list Event) :
  forallb isPipelineCall evs = true -> pauses evs = 0.
Proof.
  induction evs as [|e evs IH]; [reflexivity|]. cbn [forallb].
  intros H. apply andb_true_iff in H. destruct H as [He Hevs].
  change (e :: evs) with ([e] ++ evs)%list. rewrite pauses_app, (IH Hevs).
  destruct e; try discriminate; reflexivity.
Qed.

Lemma handleEmail_pauses (o : Outcomes) (account : Account.t) (msg : Msg.t)
    (folder : Mailbox.t) (w : World) :
  pauses (trace (snd (handleEmail o account msg folder w))) = pauses (trace w).
Proof.
  destruct (envelope_get Msg.messageId msg) as [raw|] eqn:Hid.
  - destruct (string_dec raw "") as [->|Hne].
    + now rewrite handleEmail_without_id by auto.
    + destruct (handleEmail_trace o account msg folder raw w Hid Hne) as (rest & -> & H).
      rewrite pauses_app. change (EsGet (fingerprint raw) :: rest)
        with ([EsGet (fingerprint raw)] ++ rest)%list.
      rewrite pauses_app, (pauses_pipeline _ H). cbn. lia.
  - now rewrite handleEmail_without_id by auto.
Qed.

(** With a truthful existence query and a working index write the
    pipeline completes normally. *)
Lemma handleEmail_completes (o : Outcomes) (account : Account.t) (msg : Msg.t)
    (folder : Mailbox.t) (w : World) :
  get_fault o = None -> index_fault o = None ->
  fst (handleEmail o account msg folder w) = Return tt.
Proof.
  intros Hget Hix. destruct (envelope_get Msg.messageId msg) as [raw|] eqn:Hid.
  - destruct (string_dec raw "") as [->|Hne].
    + now rewrite handleEmail_without_id by auto.
    + destruct (handleEmail_cases o account msg folder raw w Hid Hne)
        as [(-> & _)|[(err & _ & He & _)|[(err & _ & He)|(-> & _)]]];
        congruence || reflexivity.
  - now rewrite handleEmail_without_id by auto.
Qed.

Lemma backfillLoop_pauses (account : Account.t) (folder : Mailbox.t)
    (msgs : list (Msg.t * Outcomes)) (fault : option JsError) :
  Forall (fun mo => get_fault (snd mo) = None /\ index_fault (snd mo) = None) msgs ->
  forall (n : Z) (w : World),
    (0 <= n)%Z ->
    let r := backfillLoop account folder msgs fault n w in
    fst r = match fault with
            | Some err => Throw err
            | None => Return (n + Z.of_nat (length msgs))%Z
            end /\
    Z.of_nat (pauses (trace (snd r)))
    = (Z.of_nat (pauses (trace w)) + ((n + Z.of_nat (length msgs)) / 25 - n / 25))%Z.
Proof.
  induction 1 as [|[msg o] rest [Hget Hix] Hrest IH]; intros n w Hn; cbv zeta.
  - cbn [backfillLoop length]. rewrite Z.add_0_r, Z.sub_diag, Z.add_0_r.
    destruct fault; auto.
  - cbn [backfillLoop snd] in *. cbv zeta.
    pose proof (handleEmail_completes o account msg folder w Hget Hix) as Hrun.
    pose proof (handleEmail_pauses o account msg folder w) as Hp.
    destruct (handleEmail o account msg folder w) as [r w1] eqn:Hh.
    cbn [fst snd] in Hrun, Hp. subst r.
    assert (Hpause : exists w2,
               (if ((n + 1) mod 25 =? 0)%Z then emit (Sleep 10) else ret tt) w1
               = (Return tt, w2) /\
               Z.of_nat (pauses (trace w2))
               = (Z.of_nat (pauses (trace w)) + ((n + 1) / 25 - n / 25))%Z).
    { destruct ((n + 1) mod 25 =? 0)%Z eqn:E.
      - eexists. split; [reflexivity|]. cbn [record set_trace trace].
        rewrite pauses_app, Hp. change (pauses [Sleep 10]) with 1.
        apply Z.eqb_eq in E. rewrite Nat2Z.inj_add. change (Z.of_nat 1) with 1%Z.
        Z.div_mod_to_equations. lia.
      - eexists. split; [reflexivity|]. rewrite Hp.
        apply Z.eqb_neq in E. Z.div_mod_to_equations. lia. }
    destruct Hpause as (w2 & Hstep & Hp2).
    rewrite (bind_return _ _ _ _ _ Hh), (bind_return _ _ _ _ _ Hstep).
    destruct (IH (n + 1)%Z w2 ltac:(lia)) as [Hres Hcount].
    cbn [length]. rewrite Nat2Z.inj_succ.
    replace (n + Z.succ (Z.of_nat (length rest)))%Z
      with (n + 1 + Z.of_nat (length rest))%Z by lia.
    split; [exact Hres|]. rewrite Hcount, Hp2. lia.
Qed.

(** What [processFolderEmails] leaves behind, by the answer to the lock
    request. *)
Lemma processFolderEmails_eq (fo : FolderOutcomes) (account : Account.t)
    (folder : Mailbox.t) (w : World) :
  processFolderEmails fo account folder w =
  (Return tt,
   match lock_fault fo with
   | Some _ => record (GetMailboxLock (Mailbox.path folder)) w
   | None =>
       release (Mailbox.path folder)
         (snd (backfillLoop account folder (fetched fo) (fetch_fault fo) 0
                 (record (FetchSince (Mailbox.path folder))
                    (set_held (cons (Mailbox.path folder))
                       (record (GetMailboxLock (Mailbox.path folder)) w)))))
   end).
Proof.
  unfold processFolderEmails, try_catch, bind, getMailboxLock, try_finally, emit, ret.
  destruct (lock_fault fo); [reflexivity|].
  destruct (backfillLoop account folder (fetched fo) (fetch_fault fo) 0 _) as [[k|e] w2];
    reflexivity.
Qed.



Lemma backfillLoop_stops (account : Account.t) (folder : Mailbox.t) (msg : Msg.t)
    (o : Outcomes) (pre post post' : list (Msg.t * Outcomes))
    (fault fault' : option JsError) :
  (forall w, exists err, fst (handleEmail o account msg folder w) = Throw err) ->
  forall (n : Z) (w : World),
    backfillLoop account folder (pre ++ (msg, o) :: post) fault n w
    = backfillLoop account folder (pre ++ (msg, o) :: post') fault' n w.
Proof.
  intros Hthrows. induction pre as [|[m1 o1] pre IH]; intros n w.
  - cbn [app backfillLoop]. unfold bind.
    destruct (Hthrows w) as [err Herr].
    destruct (handleEmail o account msg folder w) as [[[]|e] w1]; [discriminate|].
    reflexivity.
  - cbn [app backfillLoop]. unfold bind.
    destruct (handleEmail o1 account m1 folder w) as [[[]|e] w1]; [|reflexivity].
    destruct ((if ((n + 1) mod 25 =? 0)%Z then emit (Sleep 10) else ret tt) w1)
      as [[[]|e] w2]; [|reflexivity].
    apply IH.
Qed.



(* ===================================================================== *)
(** ** The [exists] listener *)
(* ===================================================================== *)

Lemma liveLoop_sameLocks (account : Account.t) (folder : Mailbox.t)
    (msgs : list (Msg.t * Outcomes)) (fault : option JsError) :
  keeps sameLocks (liveLoop account folder msgs fault).
Proof.
  apply (keeps_liveLoop sameLocks sameLocks_refl sameLocks_trans
           (fun e => quietEvent e = true) sameLocks_record (fun _ => True)).
  - intros. split; reflexivity.
  - auto.
  - exact I.
Qed.

Lemma liveLoop_trace (account : Account.t) (folder : Mailbox.t)
    (msgs : list (Msg.t * Outcomes)) (fault : option JsError) (w : World) :
  exists rest, trace (snd (liveLoop account folder msgs fault w)) = (trace w ++ rest)%list.
Proof.
  revert w. induction msgs as [|[msg o] rest IH]; intros w; cbn [liveLoop].
  - exists []. rewrite app_nil_r. destruct fault; reflexivity.
  - unfold bind.
    assert (H : exists evs, trace (snd (handleEmail o account msg folder w))
                            = (trace w ++ evs)%list).
    { destruct (envelope_get Msg.messageId msg) as [raw|] eqn:Hid.
      - destruct (string_dec raw "") as [->|Hne].
        + rewrite handleEmail_without_id by auto. exists []. now rewrite app_nil_r.
        + destruct (handleEmail_trace o account msg folder raw w Hid Hne) as (r & -> & _).
          eauto.
      - rewrite handleEmail_without_id by auto. exists []. now rewrite app_nil_r. }
    destruct H as (evs & Hevs).
    destruct (handleEmail o account msg folder w) as [[[]|e] w1]; cbn [snd] in *.
    + destruct (IH w1) as (more & ->). rewrite Hevs, <- app_assoc. eauto.
    + eauto.
Qed.

(** What the listener does when its binding of [running] is [true]. *)
Lemma existsHandler_eq (h : ExistsHandler) (xo : ExistsOutcomes) (w : World) :
  vars w !! eh_running h = Some true ->
  let path := Mailbox.path (eh_folder h) in
  let w0 := set_held (cons path) (record (GetMailboxLock path) w) in
  let w1 := record (ImapStatus path) w0 in
  existsHandler h xo w =
  match ex_lock_fault xo with
  | Some err => (Throw err, record (GetMailboxLock path) w)
  | None =>
      match ex_status xo with
      | inl err => (Throw err, release path w1)
      | inr None => (Return tt, release path w1)
      | inr (Some uidNext) =>
          if (uidNext - 1 =? 0)%Z then (Return tt, release path w1)
          else
            let r := liveLoop (eh_account h) (eh_folder h) (ex_fetched xo)
                       (ex_fetch_fault xo) (record (FetchUid path (uidNext - 1)) w1) in
            (fst r, release path (snd r))
      end
  end.
Proof.
  intros Hrun. cbv zeta. unfold existsHandler.
  rewrite (bind_return _ _ _ _ _ (read_var_eq _ _ _ Hrun)). cbn [negb].
  unfold bind, getMailboxLock, try_finally, client_status, emit, ret.
  destruct (ex_lock_fault xo); [reflexivity|].
  destruct (ex_status xo) as [err|[uidNext|]]; [reflexivity| |reflexivity].
  destruct (uidNext - 1 =? 0)%Z; [reflexivity|].
  destruct (liveLoop _ _ _ _ _) as [r w2]. reflexivity.
Qed.

(** X10: the [exists] listener leaves no lock held, whichever way it
    ends. Unlike [processFolderEmails] it does not catch failures: when the
    lock is refused, or when the status query fails, it ends with that
    error (in the second case after releasing the lock, and without
    fetching). *)
Theorem existsHandler_releases_lock (h : ExistsHandler) (xo : ExistsOutcomes) (w : World) :
  held (snd (existsHandler h xo w)) = held w /\
  (vars w !! eh_running h = Some true ->
   forall err, ex_lock_fault xo = Some err ->
     fst (existsHandler h xo w) = Throw err) /\
  (vars w !! eh_running h = Some true ->
   ex_lock_fault xo = None ->
   forall err, ex_status xo = inl err ->
     fst (existsHandler h xo w) = Throw err /\
     trace (snd (existsHandler h xo w))
     = (trace w ++ [GetMailboxLock (Mailbox.path (eh_folder h));
                    ImapStatus (Mailbox.path (eh_folder h));
                    LockRelease (Mailbox.path (eh_folder h))])%list).
Proof.
  split; [|split].
  - destruct (vars w !! eh_running h) as [[|]|] eqn:Hrun.
    + rewrite (existsHandler_eq h xo w Hrun). cbv zeta.
      destruct (ex_lock_fault xo); [reflexivity|].
      destruct (ex_status xo) as [err|[uidNext|]];
        try (cbn; now rewrite String.eqb_refl).
      destruct (uidNext - 1 =? 0)%Z; [cbn; now rewrite String.eqb_refl|].
      cbn [snd release set_held held record set_trace].
      destruct (liveLoop_sameLocks (eh_account h) (eh_folder h) (ex_fetched xo)
                  (ex_fetch_fault xo)
                  (record (FetchUid (Mailbox.path (eh_folder h)) (uidNext - 1))
                     (record (ImapStatus (Mailbox.path (eh_folder h)))
                        (set_held (cons (Mailbox.path (eh_folder h)))
                           (record (GetMailboxLock (Mailbox.path (eh_folder h))) w)))))
        as [Hheld _].
      rewrite Hheld. cbn. now rewrite String.eqb_refl.
    + now rewrite existsHandler_guard.
    + unfold existsHandler, bind, read_var. now rewrite Hrun.
  - intros Hrun err Hlock. rewrite (existsHandler_eq h xo w Hrun). cbv zeta.
    now rewrite Hlock.
  - intros Hrun Hlock err Hstatus. rewrite (existsHandler_eq h xo w Hrun). cbv zeta.
    rewrite Hlock, Hstatus. split; [reflexivity|]. cbn. now rewrite <- !app_assoc.
Qed.


(* ===================================================================== *)
(** ** Folder tags *)
(* ===================================================================== *)

Lemma determineSpecialUse_in_tags (folderName : string) (flags : list string) :
  In (determineSpecialUse folderName flags) specialUseTags.
Proof.
  unfold determineSpecialUse, specialUseTags.
  repeat match goal with
         | |- context [if ?b then _ else _] => destruct b
         end; cbn; tauto.
Qed.

(** X12: [determineSpecialUse] only returns one of the nine tags inbox,
    sent, drafts, spam, trash, important, starred, archive, custom; so
    every folder of a successful listing carries one of them as
    [specialUse], and every document built for such a folder carries it
    as [folderType]. *)
Theorem specialUse_is_one_of_nine :
  (forall folderName flags, In (determineSpecialUse folderName flags) specialUseTags) /\
  (forall listed account w folders,
      fst (getAllFolders (inr listed) account w) = Return folders ->
      Forall (fun folder => exists tag, Mailbox.specialUse folder = Some tag
                                        /\ In tag specialUseTags) folders) /\
  (forall listedFolder o account msg raw,
      exists tag,
        Doc.folderType (emailDoc o account msg (folderInfo listedFolder) raw) = Some tag
        /\ In tag specialUseTags).
Proof.
  split; [exact determineSpecialUse_in_tags|]. split.
  - intros listed account w folders. rewrite getAllFolders_eq. cbn [fst].
    intros H. inversion H. apply List.Forall_forall. intros folder Hin.
    apply in_map_iff in Hin. destruct Hin as (lf & <- & _).
    eexists. split; [reflexivity | apply determineSpecialUse_in_tags].
  - intros lf o account msg raw. eexists. split; [reflexivity|].
    apply determineSpecialUse_in_tags.
Qed.

(** The two folders of the sample listing. *)
Lemma specialUse_is_one_of_nine_witness :
  Forall (fun folder => exists tag, Mailbox.specialUse folder = Some tag
                                    /\ In tag specialUseTags)
    (foldersOf Sample.sync).
Proof.
  destruct specialUse_is_one_of_nine as (_ & H & _).
  apply (H [Listed.Make "INBOX" "INBOX" None;
            Listed.Make "Work" "Work" (Some ["\HasNoChildren"])]
           Sample.account emptyWorld).
  reflexivity.
Defined.

Lemma firstMatch_some (p : string -> bool) (table : list (string * string)) :
  forallb (fun kv => negb (p (fst kv))) table = false ->
  exists tag, firstMatch p table = Some tag.
Proof.
  unfold firstMatch. induction table as [|kv rest IH]; [discriminate|].
  cbn [forallb find]. destruct (p (fst kv)); cbn [negb andb option_map]; eauto.
Qed.

(** X13: when a name keyword occurs in the folder name, the flags play
    no part: the tag is the same for every set of flags. *)
Theorem name_keyword_overrides_flags (folderName : string) (flags flags' : list string) :
  unrecognizedName folderName = false ->
  determineSpecialUse folderName flags = determineSpecialUse folderName flags'.
Proof.
  intros H. rewrite !determineSpecialUse_refines. unfold specialUse_spec.
  destruct (firstMatch_some _ _ H) as [tag ->]. reflexivity.
Qed.

(** A folder named [Sent Items] that the server flags as trash. *)
Lemma name_keyword_overrides_flags_witness :
  determineSpecialUse "Sent Items" ["\Trash"] = determineSpecialUse "Sent Items" []
  /\ determineSpecialUse "Sent Items" ["\Trash"] = "sent".
Proof.
  split; [|reflexivity].
  apply (name_keyword_overrides_flags "Sent Items" ["\Trash"] []). reflexivity.
Defined.

(* ===================================================================== *)
(** ** The folder listing and its cache *)
(* ===================================================================== *)

(** X14: a successful listing is returned folder by folder, in order,
    with names and paths as listed, and is stored in the folder cache
    under the account id, the cache entries of other accounts staying as
    they are; a failed listing leaves the whole cache as it is, so the
    listing of an earlier pass stays cached while the fallback is
    returned. *)
Theorem getAllFolders_caches_listing :
  (forall listed account w,
      exists folders w',
        getAllFolders (inr listed) account w = (Return folders, w') /\
        map Mailbox.name folders = map Listed.name listed /\
        map Mailbox.path folders = map Listed.path listed /\
        folderCache w' !! Account.id account = Some folders /\
        (forall other, other <> Account.id account ->
                       folderCache w' !! other = folderCache w !! other)) /\
  (forall err account w,
      folderCache (snd (getAllFolders (inl err) account w)) = folderCache w).
Proof.
  split; [|reflexivity].
  intros listed account w. rewrite getAllFolders_eq.
  eexists _, _. split; [reflexivity|]. rewrite !map_map. cbn.
  split; [reflexivity|]. split; [reflexivity|]. split.
  - apply lookup_insert_eq.
  - intros other Hne. apply lookup_insert_ne. congruence.
Qed.

(** A listing that succeeds and then one that fails: the cache keeps the
    first. *)
Lemma getAllFolders_caches_listing_witness :
  let w1 := snd (getAllFolders (list_result Sample.sync) Sample.account emptyWorld) in
  folderCache (snd (getAllFolders (inl Sample.down) Sample.account w1)) !! "A1"
  = Some (foldersOf Sample.sync).
Proof.
  cbv zeta. destruct getAllFolders_caches_listing as [_ H]. rewrite H.
  vm_compute. reflexivity.
Defined.

(* ===================================================================== *)
(** ** Listeners and reconnects *)
(* ===================================================================== *)

Lemma processFolderEmails_clients (fo : FolderOutcomes) (account : Account.t)
    (folder : Mailbox.t) (w : World) :
  clients (snd (processFolderEmails fo account folder w)) = clients w.
Proof.
  rewrite processFolderEmails_eq. cbn [snd]. destruct (lock_fault fo); [reflexivity|].
  pose proof (keeps_backfillLoop (fun a b => clients b = clients a)
                (fun _ => eq_refl) (fun a b c H1 H2 => eq_trans H2 H1)
                (fun _ => True) (fun _ _ _ => eq_refl) (fun _ => True)
                (fun _ _ _ _ _ _ _ => eq_refl) (fun _ _ => I) account folder
                (fetched fo) (fetch_fault fo) 0 I) as H.
  exact (H (record (FetchSince (Mailbox.path folder))
              (set_held (cons (Mailbox.path folder))
                 (record (GetMailboxLock (Mailbox.path folder)) w)))).
Qed.

Lemma folderLoop_listeners (so : SyncOutcomes) (account : Account.t) (running : nat)
    (folders : list Mailbox.t) :
  forall (i : nat) (client : ImapClient) (w : World),
  exists client' w',
    folderLoop so account running i folders client w = (Return client', w') /\
    clients w' = clients w /\
    on_close client' = on_close client /\
    map eh_folder (on_exists client')
    = (map eh_folder (on_exists client) ++ List.filter namedINBOX folders)%list /\
    map eh_account (on_exists client')
    = (map eh_account (on_exists client)
       ++ map (fun _ => account) (List.filter namedINBOX folders))%list.
Proof.
  induction folders as [|folder rest IH]; intros i client w.
  - exists client, w. cbn. rewrite !app_nil_r. auto.
  - cbn [folderLoop List.filter].
    pose proof (processFolderEmails_clients (folder_outcomes so i) account folder w) as Hc.
    assert (Hrun : processFolderEmails (folder_outcomes so i) account folder w
                   = (Return tt,
                      snd (processFolderEmails (folder_outcomes so i) account folder w)))
      by (rewrite processFolderEmails_eq; reflexivity).
    set (w1 := snd (processFolderEmails (folder_outcomes so i) account folder w)) in *.
    assert (Hstep : exists client1 w2,
               try_catch
                 (processFolderEmails (folder_outcomes so i) account folder ;;
                  if String.eqb (Mailbox.name folder) "INBOX"
                  then let! r := read_var running in
                       setupRealtimeMonitoring client account folder r
                  else ret client)%async
                 (fun _ => ret client) w = (Return client1, w2)
               /\ clients w2 = clients w
               /\ on_close client1 = on_close client
               /\ map eh_folder (on_exists client1)
                  = (map eh_folder (on_exists client)
                     ++ (if namedINBOX folder then [folder] else []))%list
               /\ map eh_account (on_exists client1)
                  = (map eh_account (on_exists client)
                     ++ (if namedINBOX folder then [account] else []))%list).
    { unfold namedINBOX. destruct (String.eqb (Mailbox.name folder) "INBOX").
      - eexists _, _. split.
        + apply try_catch_return. rewrite (bind_return _ _ _ _ _ Hrun). reflexivity.
        + cbn. rewrite !map_app. auto.
      - eexists _, _. split.
        + apply try_catch_return. rewrite (bind_return _ _ _ _ _ Hrun). reflexivity.
        + cbn. rewrite !app_nil_r. auto. }
    destruct Hstep as (client1 & w2 & Hstep & Hc2 & Hclose1 & Hf1 & Ha1).
    rewrite (bind_return _ _ _ _ _ Hstep).
    destruct (IH (S i) client1 w2) as (client' & w' & Hloop & Hcl & Hclose & Hf & Ha).
    exists client', w'. split; [exact Hloop|]. split; [congruence|].
    split; [congruence|]. rewrite Hf, Ha, Hf1, Ha1, <- !app_assoc.
    destruct (namedINBOX folder); auto.
Qed.

(** X15: once connected, [connectAndSync] stores the client under the
    account id (the clients of other accounts stay as they are) with one
    [close] listener and with one [exists] listener for each folder whose
    name is exactly [INBOX], in listing order, all for this account; a
    folder under any other name, whatever its tag, gets no listener. *)
Theorem connectAndSync_attaches_listeners (so : SyncOutcomes) (account : Account.t)
    (w : World) :
  connect_fault so = None ->
  exists client w',
    connectAndSync so account w = (Return tt, w') /\
    clients w' !! Account.id account = Some client /\
    (forall other, other <> Account.id account ->
                   clients w' !! other = clients w !! other) /\
    map eh_folder (on_exists client) = List.filter namedINBOX (foldersOf so) /\
    Forall (fun eh => eh_account eh = account) (on_exists client) /\
    map ch_account (on_close client) = [account].
Proof.
  intros Hconn.
  set (w0 := record (ImapConnect (Account.id account)) w).
  assert (Hcall : call (ImapConnect (Account.id account)) (connect_fault so) w
                  = (Return tt, w0)) by (unfold call; now rewrite Hconn).
  unfold connectAndSync. rewrite (bind_return _ _ _ _ _ Hcall).
  assert (Hlist : exists w1,
             getAllFolders (list_result so) account w0 = (Return (foldersOf so), w1)
             /\ clients w1 = clients w).
  { rewrite getAllFolders_eq. unfold foldersOf.
    destruct (list_result so); eexists; split; reflexivity. }
  destruct Hlist as (w1 & Hlist & Hc1).
  rewrite (bind_return _ _ _ _ _ Hlist).
  unfold bind at 1, alloc.
  set (w2 := set_vars (fun vs => (vs ++ [true])%list) w1).
  destruct (folderLoop_listeners so account (length (vars w1)) (foldersOf so) 0
              (MkClient [] []) w2) as (client & w3 & Hloop & Hc3 & Hclose & Hf & Ha).
  rewrite (bind_return _ _ _ _ _ Hloop).
  unfold bind, read_var, setupConnectionMaintenance, bind, alloc, ret.
  eexists _, _. split; [reflexivity|]. cbn [clients set_clients set_vars].
  split; [apply lookup_insert_eq|]. split.
  { intros other Hne. rewrite lookup_insert_ne by congruence.
    rewrite Hc3. subst w2. cbn. now rewrite Hc1. }
  cbn [on_exists on_close]. split; [exact Hf|]. split.
  - cbn in Ha. apply List.Forall_forall. intros eh Hin.
    apply (in_map eh_account) in Hin. rewrite Ha in Hin.
    apply in_map_iff in Hin. destruct Hin as (f & Hf' & _). now symmetry.
  - rewrite Hclose. reflexivity.
Qed.

(** The sample listing: one listener for [INBOX], none for [Work]. *)
Lemma connectAndSync_attaches_listeners_witness :
  exists client w',
    connectAndSync Sample.sync Sample.account emptyWorld = (Return tt, w') /\
    clients w' !! Account.id Sample.account = Some client /\
    (forall other, other <> Account.id Sample.account ->
                   clients w' !! other = clients emptyWorld !! other) /\
    map eh_folder (on_exists client) = List.filter namedINBOX (foldersOf Sample.sync) /\
    Forall (fun eh => eh_account eh = Sample.account) (on_exists client) /\
    map ch_account (on_close client) = [Sample.account].
Proof.
  apply (connectAndSync_attaches_listeners Sample.sync Sample.account emptyWorld).
  reflexivity.
Defined.

Lemma reconnects_app (a b : list Event) :
  reconnects (a ++ b)%list = (reconnects a ++ reconnects b)%list.
Proof. apply List.filter_app. Qed.

Lemma sameReconnects_refl (w : World) : sameReconnects w w.
Proof. reflexivity. Qed.

Lemma sameReconnects_trans (a b c : World) :
  sameReconnects a b -> sameReconnects b c -> sameReconnects a c.
Proof. unfold sameReconnects. congruence. Qed.

Lemma sameReconnects_record (e : Event) (w : World) :
  isReconnect e = false -> sameReconnects w (record e w).
Proof.
  intros He. unfold sameReconnects. cbn [record set_trace trace].
  rewrite reconnects_app. cbn. rewrite He. apply app_nil_r.
Qed.

Lemma sameReconnects_same_trace (w w' : World) :
  trace w' = trace w -> sameReconnects w w'.
Proof. unfold sameReconnects. now intros ->. Qed.

Lemma reconnects_pipeline (evs : list Event) :
  forallb isPipelineCall evs = true -> reconnects evs = [].
Proof.
  induction evs as [|e evs IH]; [reflexivity|]. cbn [forallb].
  intros H. apply andb_true_iff in H. destruct H as [He Hevs].
  change (e :: evs) with ([e] ++ evs)%list. rewrite reconnects_app, (IH Hevs).
  destruct e; try discriminate; reflexivity.
Qed.

Lemma handleEmail_sameReconnects (o : Outcomes) (account : Account.t) (msg : Msg.t)
    (folder : Mailbox.t) :
  keeps sameReconnects (handleEmail o account msg folder).
Proof.
  intros w. unfold sameReconnects.
  destruct (envelope_get Msg.messageId msg) as [raw|] eqn:Hid.
  - destruct (string_dec raw "") as [->|Hne].
    + now rewrite handleEmail_without_id by auto.
    + destruct (handleEmail_trace o account msg folder raw w Hid Hne) as (rest & -> & H).
      rewrite reconnects_app.
      change (EsGet (fingerprint raw) :: rest) with ([EsGet (fingerprint raw)] ++ rest)%list.
      rewrite reconnects_app, (reconnects_pipeline _ H). apply app_nil_r.
  - now rewrite handleEmail_without_id by auto.
Qed.

Lemma backfillLoop_sameReconnects (account : Account.t) (folder : Mailbox.t)
    (msgs : list (Msg.t * Outcomes)) (fault : option JsError) :
  forall n, keeps sameReconnects (backfillLoop account folder msgs fault n).
Proof.
  induction msgs as [|[msg o] rest IH]; intros n; cbn [backfillLoop].
  - destruct fault; [apply (keeps_throw _ sameReconnects_refl)
                    | apply (keeps_ret _ sameReconnects_refl)].
  - apply (keeps_bind _ sameReconnects_trans); [apply handleEmail_sameReconnects|].
    intros _. apply (keeps_bind _ sameReconnects_trans); [|intros _; apply IH].
    destruct (_ =? 0)%Z; [|apply (keeps_ret _ sameReconnects_refl)].
    intros w. now apply sameReconnects_record.
Qed.

Lemma liveLoop_sameReconnects (account : Account.t) (folder : Mailbox.t)
    (msgs : list (Msg.t * Outcomes)) (fault : option JsError) :
  keeps sameReconnects (liveLoop account folder msgs fault).
Proof.
  induction msgs as [|[msg o] rest IH]; cbn [liveLoop].
  - destruct fault; [apply (keeps_throw _ sameReconnects_refl)
                    | apply (keeps_ret _ sameReconnects_refl)].
  - apply (keeps_bind _ sameReconnects_trans); [apply handleEmail_sameReconnects|].
    intros _. exact IH.
Qed.

Lemma processFolderEmails_sameReconnects (fo : FolderOutcomes) (account : Account.t)
    (folder : Mailbox.t) :
  keeps sameReconnects (processFolderEmails fo account folder).
Proof.
  unfold processFolderEmails.
  apply (keeps_try_catch _ sameReconnects_trans);
    [|intros _; apply (keeps_ret _ sameReconnects_refl)].
  apply (keeps_bind _ sameReconnects_trans).
  - intros w. unfold getMailboxLock. destruct (lock_fault fo); cbn [snd].
    + now apply sameReconnects_record.
    + apply (sameReconnects_trans _ (record (GetMailboxLock (Mailbox.path folder)) w));
        [now apply sameReconnects_record | now apply sameReconnects_same_trace].
  - intros _. apply (keeps_try_finally _ sameReconnects_trans).
    + apply (keeps_bind _ sameReconnects_trans);
        [intros w; now apply sameReconnects_record|].
      intros _. apply (keeps_bind _ sameReconnects_trans);
        [apply backfillLoop_sameReconnects|].
      intros _. apply (keeps_ret _ sameReconnects_refl).
    + intros w. unfold release.
      apply (sameReconnects_trans _ (record (LockRelease (Mailbox.path folder)) w));
        [now apply sameReconnects_record | now apply sameReconnects_same_trace].
Qed.

Lemma folderLoop_sameReconnects (so : SyncOutcomes) (account : Account.t) (running : nat)
    (folders : list Mailbox.t) :
  forall i client, keeps sameReconnects (folderLoop so account running i folders client).
Proof.
  induction folders as [|folder rest IH]; intros i client; cbn [folderLoop].
  - apply (keeps_ret _ sameReconnects_refl).
  - apply (keeps_bind _ sameReconnects_trans); [|intros client'; apply IH].
    apply (keeps_try_catch _ sameReconnects_trans);
      [|intros _; apply (keeps_ret _ sameReconnects_refl)].
    apply (keeps_bind _ sameReconnects_trans);
      [apply processFolderEmails_sameReconnects|].
    intros _. destruct (String.eqb (Mailbox.name folder) "INBOX");
      [|apply (keeps_ret _ sameReconnects_refl)].
    intros w. now apply sameReconnects_same_trace.
Qed.

(** X16: a reconnect is scheduled by the [close] listener only, once per
    [close] event, after 10000 ms and for the listener's own account.
    [connectAndSync] and the [exists] listener never schedule one,
    whatever fails inside them; in particular a connection attempt that
    fails ends [connectAndSync] right there, with nothing listed, no
    listener attached, no client stored and no new attempt scheduled. *)
Theorem only_close_schedules_a_reconnect :
  (forall so account w,
      reconnects (trace (snd (connectAndSync so account w))) = reconnects (trace w)) /\
  (forall h xo w,
      reconnects (trace (snd (existsHandler h xo w))) = reconnects (trace w)) /\
  (forall h w,
      reconnects (trace (snd (closeHandler h w)))
      = (reconnects (trace w) ++ [ReconnectIn 10000 (Account.id (ch_account h))])%list) /\
  (forall so account w err,
      connect_fault so = Some err ->
      connectAndSync so account w
      = (Throw err, record (ImapConnect (Account.id account)) w)).
Proof.
  split; [|split; [|split]].
  - intros so account. change (keeps sameReconnects (connectAndSync so account)).
    unfold connectAndSync.
    apply (keeps_bind _ sameReconnects_trans).
    { intros w. unfold call. destruct (connect_fault so); now apply sameReconnects_record. }
    intros _. apply (keeps_bind _ sameReconnects_trans).
    { intros w. rewrite getAllFolders_eq.
      destruct (list_result so); cbn [snd].
      - now apply sameReconnects_record.
      - apply (sameReconnects_trans _ (record ImapList w));
          [now apply sameReconnects_record | now apply sameReconnects_same_trace]. }
    intros folders. apply (keeps_bind _ sameReconnects_trans);
      [intros w; now apply sameReconnects_same_trace|].
    intros running. apply (keeps_bind _ sameReconnects_trans);
      [apply folderLoop_sameReconnects|].
    intros client w. now apply sameReconnects_same_trace.
  - intros h xo. change (keeps sameReconnects (existsHandler h xo)).
    unfold existsHandler.
    apply (keeps_bind _ sameReconnects_trans); [intros w; apply sameReconnects_refl|].
    intros running. destruct (negb running); [apply (keeps_ret _ sameReconnects_refl)|].
    apply (keeps_bind _ sameReconnects_trans).
    { intros w. unfold getMailboxLock. destruct (ex_lock_fault xo); cbn [snd].
      - now apply sameReconnects_record.
      - apply (sameReconnects_trans _
                 (record (GetMailboxLock (Mailbox.path (eh_folder h))) w));
          [now apply sameReconnects_record | now apply sameReconnects_same_trace]. }
    intros _. apply (keeps_try_finally _ sameReconnects_trans).
    + apply (keeps_bind _ sameReconnects_trans).
      * intros w. unfold client_status.
        destruct (ex_status xo); now apply sameReconnects_record.
      * intros [uidNext|]; [|apply (keeps_ret _ sameReconnects_refl)].
        destruct (_ =? 0)%Z; [apply (keeps_ret _ sameReconnects_refl)|].
        apply (keeps_bind _ sameReconnects_trans);
          [intros w; now apply sameReconnects_record|].
        intros _. apply liveLoop_sameReconnects.
    + intros w. unfold release.
      apply (sameReconnects_trans _
               (record (LockRelease (Mailbox.path (eh_folder h))) w));
        [now apply sameReconnects_record | now apply sameReconnects_same_trace].
  - intros h w. rewrite closeHandler_eq. cbn [snd record set_trace trace set_vars].
    now rewrite reconnects_app.
  - intros so account w err Hconn. unfold connectAndSync, bind at 1, call.
    now rewrite Hconn.
Qed.

(** The sample account when the server refuses the connection. *)
Lemma only_close_schedules_a_reconnect_witness :
  connectAndSync (MkSyncOutcomes (Some Sample.down) (list_result Sample.sync)
                    (folder_outcomes Sample.sync)) Sample.account emptyWorld
  = (Throw Sample.down, record (ImapConnect "A1") emptyWorld).
Proof.
  destruct only_close_schedules_a_reconnect as (_ & _ & _ & H).
  apply (H (MkSyncOutcomes (Some Sample.down) (list_result Sample.sync)
              (folder_outcomes Sample.sync)) Sample.account emptyWorld Sample.down).
  reflexivity.
Defined.

(** The status query fails while the lock is held. *)
Lemma existsHandler_releases_lock_witness :
  held (snd (existsHandler Sample2.listener Sample2.statusDown Sample2.listening))
  = held Sample2.listening /\
  fst (existsHandler Sample2.listener Sample2.statusDown Sample2.listening)
  = Throw Sample.down.
Proof.
  destruct (existsHandler_releases_lock Sample2.listener Sample2.statusDown
              Sample2.listening) as (Hheld & _ & Hstatus).
  split; [exact Hheld|].
  apply (Hstatus eq_refl eq_refl Sample.down eq_refl).
Defined.


(* ===================================================================== *)
(** * The recategorisation route *)
(* ===================================================================== *)

Lemma es_update_eq (fault : option JsError) (id label : string) (w : World) :
  es_update fault id label w =
  match fault with
  | Some err => (Throw err, w)
  | None =>
      match store w !! id with
      | Some d =>
          (Return tt, set_store (fun s => <[id := with_aiCategory d (Some label)]> s) w)
      | None => (Throw notFound, w)
      end
  end.
Proof. reflexivity. Qed.

(** The route, by the answers of the store. *)
Lemma categorizeRoute_eq (get_fault : option JsError) (reply : GeminiReply)
    (update_fault : option JsError) (key : string) (w : World) :
  categorizeRoute get_fault reply update_fault key w =
  let w1 := record (EsGet key) w in
  match get_fault, store w !! key with
  | Some err, _ => (Return (Http.Response 500 [("error", message err)]), w1)
  | None, None => (Return (Http.Response 500 [("error", message notFound)]), w1)
  | None, Some d =>
      let label := resolvedLabel reply in
      let w2 := record (GeminiPost (Doc.subject d) (Doc.raw d)) w1 in
      match update_fault with
      | Some err => (Return (Http.Response 500 [("error", message err)]), w2)
      | None =>
          (Return (Http.Response 200 [("id", key); ("aiCategory", label)]),
           set_store (fun s => <[key := with_aiCategory d (Some label)]> s) w2)
      end
  end.
Proof.
  unfold categorizeRoute, try_catch, bind at 1. rewrite es_get_eq. cbv zeta.
  destruct get_fault as [err|]; [reflexivity|].
  destruct (store w !! key) as [d|] eqn:Hd; [|reflexivity].
  cbn [default from_option id]. unfold bind at 1. rewrite categorizeEmail_eq.
  unfold bind, es_update, ret. destruct update_fault as [err|]; [reflexivity|].
  cbn [store record set_trace]. now rewrite Hd.
Qed.

(** X17: the recategorisation route always answers and never throws: the
    status is 200 or 500, and with 500 the index is left as it was. For an
    id that is not in the index it answers 500 with the message of the
    not-found error, having made the existence query only (the classifier
    is not called). *)
Theorem categorizeRoute_always_answers (get_fault : option JsError) (reply : GeminiReply)
    (update_fault : option JsError) (key : string) (w : World) :
  exists resp w',
    categorizeRoute get_fault reply update_fault key w = (Return resp, w') /\
    (Http.status resp = 200%Z \/ (Http.status resp = 500%Z /\ store w' = store w)) /\
    (get_fault = None -> store w !! key = None ->
     resp = Http.Response 500 [("error", message notFound)] /\
     trace w' = (trace w ++ [EsGet key])%list).
Proof.
  rewrite categorizeRoute_eq. cbv zeta.
  destruct get_fault as [err|].
  - eexists _, _. split; [reflexivity|]. split; [right; split; reflexivity|].
    discriminate.
  - destruct (store w !! key) as [d|].
    + destruct update_fault as [err|]; eexists _, _; (split; [reflexivity|]);
        (split; [|discriminate]); [right; split; reflexivity | left; reflexivity].
    + eexists _, _. split; [reflexivity|]. split; [right; split; reflexivity|].
      intros _ _. split; reflexivity.
Qed.

(** The route for an id that was never indexed. *)
Lemma categorizeRoute_always_answers_witness :
  categorizeRoute None (ReplyText (Some "Interested")) None "no-such-id" emptyWorld
  = (Return (Http.Response 500 [("error", message notFound)]),
     record (EsGet "no-such-id") emptyWorld).
Proof.
  destruct (categorizeRoute_always_answers None (ReplyText (Some "Interested")) None
              "no-such-id" emptyWorld) as (resp & w' & Hrun & _ & H).
  destruct (H eq_refl eq_refl) as [-> Htrace].
  rewrite Hrun. f_equal.
  rewrite categorizeRoute_eq in Hrun. cbv zeta in Hrun. cbn in Hrun.
  now inversion Hrun.
Defined.

(** X18: for a document that is in the index, and when the store
    answers, the recategorisation route classifies the stored subject and
    raw content, writes the resulting label (one of the five) into the
    [aiCategory] of that document and answers 200 with the id and that
    label. Nothing else of the document and no other document changes.
    When the classifier call fails the label written and reported is
    [Spam]. *)
Theorem categorizeRoute_sets_the_category (reply : GeminiReply) (key : string)
    (d : Doc.t) (w : World) :
  store w !! key = Some d ->
  let label := resolvedLabel reply in
  exists w',
    categorizeRoute None reply None key w
    = (Return (Http.Response 200 [("id", key); ("aiCategory", label)]), w') /\
    In label LABELS /\
    store w' !! key = Some (with_aiCategory d (Some label)) /\
    (forall other, other <> key -> store w' !! other = store w !! other) /\
    trace w' = (trace w ++ [EsGet key; GeminiPost (Doc.subject d) (Doc.raw d)])%list /\
    (forall err, reply = PostFails err -> label = "Spam").
Proof.
  intros Hd label. rewrite categorizeRoute_eq, Hd. cbv zeta.
  eexists. split; [reflexivity|]. split; [apply resolvedLabel_in_LABELS|].
  cbn [store set_store record set_trace trace]. split; [apply lookup_insert_eq|].
  split; [intros other Hne; apply lookup_insert_ne; congruence|].
  split; [now rewrite <- app_assoc|].
  intros err ->. reflexivity.
Qed.

(** X19: the label written by the recategorisation route stays: after a
    message has been indexed and recategorised, processing the same
    message again (with a truthful existence query) leaves its document,
    label included, exactly as the route wrote it. *)
Theorem recategorisation_survives_resync (o1 o3 : Outcomes) (reply : GeminiReply)
    (account : Account.t) (msg : Msg.t) (folder : Mailbox.t) (raw : string)
    (w w1 : World) :
  envelope_get Msg.messageId msg = Some raw -> raw <> "" ->
  store w !! fingerprint raw = None ->
  handleEmail o1 account msg folder w = (Return tt, w1) ->
  get_fault o3 = None ->
  let w2 := snd (categorizeRoute None reply None (fingerprint raw) w1) in
  let stored := with_aiCategory (emailDoc o1 account msg folder raw)
                  (Some (resolvedLabel reply)) in
  store w1 !! fingerprint raw = Some (emailDoc o1 account msg folder raw) /\
  store w2 !! fingerprint raw = Some stored /\
  store (snd (handleEmail o3 account msg folder w2)) !! fingerprint raw = Some stored.
Proof.
  intros Hid Hne Habsent Hrun Hget. cbv zeta.
  assert (H1 : store w1 !! fingerprint raw = Some (emailDoc o1 account msg folder raw)).
  { destruct (handleEmail_completed _ _ _ _ _ _ _ Hid Hne Hrun) as [[_ [d Hd]]| ->].
    - rewrite Habsent in Hd. discriminate.
    - apply lookup_insert_eq. }
  rewrite categorizeRoute_eq, H1. cbv zeta. cbn [snd].
  set (w2 := set_store _ _).
  assert (H2 : store w2 !! fingerprint raw
               = Some (with_aiCategory (emailDoc o1 account msg folder raw)
                         (Some (resolvedLabel reply)))) by apply lookup_insert_eq.
  split; [reflexivity|]. split; [exact H2|].
  destruct (handleEmail_cases o3 account msg folder raw w2 Hid Hne)
    as [(-> & _)|[(err & _ & He & _)|[(err & -> & _)|(_ & _ & Hno)]]].
  - exact H2.
  - congruence.
  - exact H2.
  - rewrite (Hno Hget) in H2. discriminate.
Qed.

(** The scenario message, indexed and then recategorised while the
    classification service is down. *)
Lemma categorizeRoute_sets_the_category_witness :
  let w1 := snd (handleEmail Sample.allGood Sample.account Sample.message Sample.inbox
                   emptyWorld) in
  exists w',
    categorizeRoute None (PostFails Sample.down) None (fingerprint "<id-1>") w1
    = (Return (Http.Response 200 [("id", fingerprint "<id-1>"); ("aiCategory", "Spam")]),
       w') /\
    store w' !! fingerprint "<id-1>"
    = Some (with_aiCategory
              (emailDoc Sample.allGood Sample.account Sample.message Sample.inbox "<id-1>")
              (Some "Spam")).
Proof.
  cbv zeta.
  destruct (categorizeRoute_sets_the_category (PostFails Sample.down)
              (fingerprint "<id-1>")
              (emailDoc Sample.allGood Sample.account Sample.message Sample.inbox "<id-1>")
              (snd (handleEmail Sample.allGood Sample.account Sample.message Sample.inbox
                      emptyWorld)))
    as (w' & Hrun & _ & Hstore & _).
  - vm_compute. reflexivity.
  - exists w'. split; [exact Hrun | exact Hstore].
Defined.

(** The scenario message: indexed, recategorised as [Meeting Booked],
    then fetched again. *)
Lemma recategorisation_survives_resync_witness :
  let w1 := snd (handleEmail Sample.allGood Sample.account Sample.message Sample.inbox
                   emptyWorld) in
  let w2 := snd (categorizeRoute None (ReplyText (Some "meeting booked")) None
                   (fingerprint "<id-1>") w1) in
  store (snd (handleEmail Sample.slackDown Sample.account Sample.message Sample.inbox w2))
    !! fingerprint "<id-1>"
  = Some (with_aiCategory
            (emailDoc Sample.allGood Sample.account Sample.message Sample.inbox "<id-1>")
            (Some "Meeting Booked")).
Proof.
  cbv zeta.
  destruct (recategorisation_survives_resync Sample.allGood Sample.slackDown
              (ReplyText (Some "meeting booked")) Sample.account Sample.message
              Sample.inbox "<id-1>" emptyWorld
              (snd (handleEmail Sample.allGood Sample.account Sample.message Sample.inbox
                      emptyWorld))) as (_ & _ & H).
  - reflexivity.
  - discriminate.
  - reflexivity.
  - vm_compute. reflexivity.
  - reflexivity.
  - exact H.
Defined.

(* ===================================================================== *)
(** * The template records of the reply service *)
(* ===================================================================== *)

Lemma splitOn_plain (sep : ascii) (k : string) :
  occurs sep k = false -> splitOn sep k = [k].
Proof.
  induction k as [|c r IH]; [reflexivity|]. cbn [occurs splitOn].
  intros H. apply orb_false_iff in H. destruct H as [Hc Hr].
  rewrite Ascii.eqb_sym, Hc, (IH Hr). reflexivity.
Qed.

Lemma splitOn_piece (sep : ascii) (k rest : string) :
  occurs sep k = false ->
  splitOn sep (k ++ String sep rest) = k :: splitOn sep rest.
Proof.
  induction k as [|c r IH]; intros H.
  - rewrite append_nil. cbn [splitOn]. now rewrite Ascii.eqb_refl.
  - cbn [occurs] in H. apply orb_false_iff in H. destruct H as [Hc Hr].
    rewrite append_cons. cbn [splitOn]. rewrite Ascii.eqb_sym, Hc, (IH Hr). reflexivity.
Qed.

Lemma splitOn_join (sep : ascii) (ks : list string) :
  ks <> [] ->
  Forall (fun k => occurs sep k = false) ks ->
  splitOn sep (JsString.join (String sep "") ks) = ks.
Proof.
  intros Hne Hall. induction Hall as [|k rest Hk Hrest IH]; [congruence|].
  destruct rest as [|k' rest'].
  - cbn [JsString.join]. now apply splitOn_plain.
  - change (JsString.join (String sep "") (k :: k' :: rest'))
      with (k ++ String sep "" ++ JsString.join (String sep "") (k' :: rest')).
    rewrite append_cons, append_nil, (splitOn_piece _ _ _ Hk), IH; [reflexivity|].
    discriminate.
Qed.

(** X20: the keywords of a training example are stored joined by commas
    and read back by splitting at commas. They come back as they were when
    there is at least one keyword and none contains a comma; an empty list
    of keywords comes back as one empty keyword. *)
Theorem stored_keywords_round_trip {D : Type} (item : Rag.trainingData) (distance : D) :
  (Rag.keywords item <> [] ->
   Forall (fun k => occurs "," k = false) (Rag.keywords item) ->
   Rag.m_keywords (Rag.matchedTemplate (Rag.storedOf item) distance) = Rag.keywords item) /\
  (Rag.keywords item = [] ->
   Rag.m_keywords (Rag.matchedTemplate (Rag.storedOf item) distance) = [""]) /\
  Rag.m_template (Rag.matchedTemplate (Rag.storedOf item) distance) = Rag.template item /\
  Rag.m_context (Rag.matchedTemplate (Rag.storedOf item) distance) = Rag.context item.
Proof.
  split; [|split; [|split; reflexivity]].
  - intros Hne Hall. cbn [Rag.m_keywords Rag.matchedTemplate Rag.s_keywords Rag.storedOf].
    now apply splitOn_join.
  - intros Hnil. cbn [Rag.m_keywords Rag.matchedTemplate Rag.s_keywords Rag.storedOf].
    rewrite Hnil. reflexivity.
Qed.

(** An example with two keywords, and one with none. *)
Lemma stored_keywords_round_trip_witness :
  Rag.m_keywords
    (Rag.matchedTemplate
       (Rag.storedOf (Rag.TrainingData "interview invitation" ["interview"; "schedule a call"]
                        "Thanks, here is my calendar: {meeting_link}"
                        (Rag.Metadata "interview" "high" "job")))
       tt)
  = ["interview"; "schedule a call"] /\
  Rag.m_keywords
    (Rag.matchedTemplate
       (Rag.storedOf (Rag.TrainingData "greeting" [] "Hello" (Rag.Metadata "g" "low" "misc")))
       tt)
  = [""].
Proof.
  split.
  - apply (stored_keywords_round_trip
             (Rag.TrainingData "interview invitation" ["interview"; "schedule a call"]
                "Thanks, here is my calendar: {meeting_link}"
                (Rag.Metadata "interview" "high" "job")) tt).
    + discriminate.
    + repeat constructor.
  - apply (stored_keywords_round_trip
             (Rag.TrainingData "greeting" [] "Hello" (Rag.Metadata "g" "low" "misc")) tt).
    reflexivity.
Defined.

Lemma append_cancel_l (a b c : string) : a ++ b = a ++ c -> b = c.
Proof.
  induction a as [|x a IH]; [auto|]. rewrite !append_cons. intros H.
  inversion H. auto.
Qed.

Lemma NoDup_map_injective {A B} (f : A -> B) (l : list A) :
  (forall x y, f x = f y -> x = y) -> NoDup l -> NoDup (map f l).
Proof.
  intros Hinj. induction 1 as [|x l Hx Hl IH]; cbn [map]; constructor; [|exact IH].
  rewrite list_elem_of_In, in_map_iff. intros (y & Hy & Hin).
  apply Hinj in Hy. subst y. apply Hx. now apply list_elem_of_In.
Qed.

Lemma fillArrays_eq (allData : list Rag.trainingData) :
  forall (i : nat) (documents ids : list string) (metadatas : list Rag.stored),
    Rag.fillArrays i allData documents ids metadatas =
    ((documents ++ map Rag.searchableText allData)%list,
     (ids ++ map (fun k => ("template_" ++ pretty k)%string) (seq i (length allData)))%list,
     (metadatas ++ map Rag.storedOf allData)%list).
Proof.
  induction allData as [|item rest IH]; intros i documents ids metadatas.
  - cbn. now rewrite !app_nil_r.
  - cbn [Rag.fillArrays length seq map]. rewrite IH, <- !app_assoc. reflexivity.
Qed.

(** X21: the three arrays [populateVectorDatabase] hands to the vector
    database are aligned with the training data: entry [i] of [documents]
    and of [metadatas] comes from item [i], its id is [template_i], and
    no two ids are equal. *)
Theorem templateArrays_aligned (allData : list Rag.trainingData) :
  exists documents ids metadatas,
    Rag.templateArrays allData = (documents, ids, metadatas) /\
    documents = map Rag.searchableText allData /\
    metadatas = map Rag.storedOf allData /\
    ids = map (fun i => "template_" ++ pretty i) (seq 0 (length allData)) /\
    length ids = length allData /\
    NoDup ids.
Proof.
  unfold Rag.templateArrays. rewrite fillArrays_eq. cbn [app].
  eexists _, _, _. split; [reflexivity|]. repeat split.
  - now rewrite length_map, length_seq.
  - apply NoDup_map_injective; [|apply NoDup_seq].
    intros i j H. apply append_cancel_l in H. now apply pretty_nat_inj in H.
Qed.

(* ===================================================================== *)
(** ** Embedding in batches *)
(* ===================================================================== *)

Section Embeddings.
Context {E : Type}.
Variable embed : nat -> string -> JsError + E.
Variable val : nat -> string -> E.

Lemma embedded_app (a b : list Rag.call) :
  Rag.embedded (a ++ b)%list = (Rag.embedded a ++ Rag.embedded b)%list.
Proof. apply List.filter_app. Qed.

Lemma waits_app (a b : list Rag.call) : Rag.waits (a ++ b)%list = Rag.waits a + Rag.waits b.
Proof. unfold Rag.waits. now rewrite List.filter_app, length_app. Qed.

Lemma embedded_texts (l : list string) :
  Rag.embedded (map Rag.EmbedContent l) = map Rag.EmbedContent l.
Proof. induction l as [|t l IH]; [reflexivity|]. cbn. now f_equal. Qed.

Lemma waits_texts (l : list string) : Rag.waits (map Rag.EmbedContent l) = 0.
Proof. induction l as [|t l IH]; [reflexivity|]. exact IH. Qed.

(** A batch all of whose texts are embedded. *)
Lemma embedBatch_ok (batch : list string) :
  forall (embeddings : list E) (calls : list Rag.call),
    (forall j t, batch !! j = Some t ->
                 embed (length embeddings + j) t = inr (val (length embeddings + j) t)) ->
    Rag.embedBatch embed batch embeddings calls
    = (inr (embeddings ++ imap (fun j t => val (length embeddings + j) t) batch)%list,
       (calls ++ map Rag.EmbedContent batch)%list).
Proof.
  induction batch as [|t rest IH]; intros embeddings calls Hok.
  - cbn. now rewrite !app_nil_r.
  - cbn [Rag.embedBatch]. pose proof (Hok 0 t eq_refl) as H0.
    rewrite Nat.add_0_r in H0. rewrite H0, IH.
    + rewrite imap_cons, Nat.add_0_r, <- !app_assoc. cbn [app map].
      f_equal. f_equal. f_equal. f_equal.
      apply imap_ext. intros j u _. cbn. rewrite length_app. cbn. f_equal. lia.
    + intros j u Hj. rewrite length_app. cbn [length].
      replace (length embeddings + 1 + j) with (length embeddings + S j) by lia.
      now apply Hok.
Qed.

(** A batch in which the text at position [k] is refused. *)
Lemma embedBatch_fail (batch : list string) :
  forall (k : nat) (embeddings : list E) (calls : list Rag.call) (t : string)
         (err : JsError),
    batch !! k = Some t ->
    embed (length embeddings + k) t = inl err ->
    (forall j u, j < k -> batch !! j = Some u ->
                 embed (length embeddings + j) u = inr (val (length embeddings + j) u)) ->
    Rag.embedBatch embed batch embeddings calls
    = (inl err, (calls ++ map Rag.EmbedContent (firstn (S k) batch))%list).
Proof.
  induction batch as [|t0 rest IH]; intros k embeddings calls t err Hk Hbad Hok;
    [discriminate|].
  cbn [Rag.embedBatch]. destruct k as [|k].
  - cbn in Hk. inversion Hk. subst t0. rewrite Nat.add_0_r in Hbad. rewrite Hbad.
    reflexivity.
  - pose proof (Hok 0 t0 ltac:(lia) eq_refl) as H0. rewrite Nat.add_0_r in H0.
    rewrite H0. rewrite (IH k _ _ t err Hk).
    + rewrite <- app_assoc. reflexivity.
    + rewrite length_app. cbn [length].
      replace (length embeddings + 1 + k) with (length embeddings + S k) by lia.
      exact Hbad.
    + intros j u Hj Hu. rewrite length_app. cbn [length].
      replace (length embeddings + 1 + j) with (length embeddings + S j) by lia.
      apply Hok; [lia | exact Hu].
Qed.

Variable texts : list string.

Lemma batch_lookup (i j : nat) (t : string) :
  firstn 10 (skipn i texts) !! j = Some t -> texts !! (i + j) = Some t.
Proof. intros H. apply lookup_take_Some in H. destruct H as [H _]. now rewrite lookup_drop in H. Qed.

Lemma batch_length (i : nat) :
  length (firstn 10 (skipn i texts)) = Nat.min 10 (length texts - i).
Proof. now rewrite length_take, length_drop. Qed.

(** The loop when every text is embedded. *)
Lemma embedLoop_ok (fuel : nat) :
  (forall k t, texts !! k = Some t -> embed k t = inr (val k t)) ->
  forall (i : nat) (embeddings : list E) (calls : list Rag.call),
    (i < length texts -> length embeddings = i) ->
    length texts <= i + fuel ->
    exists out,
      Rag.embedLoop fuel embed texts i embeddings calls
      = (inr (embeddings ++ imap (fun j t => val (i + j) t) (skipn i texts))%list, out) /\
      Rag.embedded out = (Rag.embedded calls ++ map Rag.EmbedContent (skipn i texts))%list /\
      Rag.waits out = Rag.waits calls + (length texts - i - 1) / 10.
Proof.
  intros Hok. induction fuel as [|fuel IH]; intros i embeddings calls Hlen Hfuel.
  - exists calls. cbn [Rag.embedLoop]. rewrite drop_ge by lia. cbn.
    rewrite !app_nil_r. replace (length texts - i - 1) with 0 by lia. cbn. auto.
  - cbn [Rag.embedLoop]. destruct (i <? length texts)%nat eqn:Hi.
    + apply Nat.ltb_lt in Hi. specialize (Hlen Hi). cbv zeta.
      rewrite embedBatch_ok.
      2:{ intros j t Hj. rewrite Hlen. apply Hok. now apply batch_lookup. }
      set (batch := firstn 10 (skipn i texts)).
      assert (Hsplit : skipn i texts = (batch ++ skipn (i + 10) texts)%list).
      { unfold batch. rewrite <- drop_drop. symmetry. apply take_drop. }
      destruct (IH (i + 10)
                  (embeddings ++ imap (fun j t => val (length embeddings + j) t) batch)%list
                  (if (i + 10 <? length texts)%nat
                   then ((calls ++ map Rag.EmbedContent batch) ++ [Rag.Wait 100])%list
                   else (calls ++ map Rag.EmbedContent batch)%list))
        as (out & Hrun & Hemb & Hwait).
      * intros Hnext. rewrite length_app, length_imap. unfold batch.
        rewrite batch_length. lia.
      * lia.
      * exists out. rewrite Hrun. split; [|split].
        -- f_equal. f_equal. rewrite <- app_assoc. f_equal. rewrite Hsplit.
           rewrite imap_app, Hlen. f_equal.
           destruct (decide (i + 10 < length texts)) as [Hlt|Hge].
           ++ apply imap_ext. intros j t _. cbn. unfold batch. rewrite batch_length.
              f_equal. lia.
           ++ rewrite drop_ge by lia. reflexivity.
        -- rewrite Hemb, Hsplit. rewrite map_app, app_assoc. f_equal.
           destruct (i + 10 <? length texts)%nat;
             rewrite !embedded_app, embedded_texts; cbn; now rewrite ?app_nil_r.
        -- rewrite Hwait. destruct (i + 10 <? length texts)%nat eqn:Hnext.
           ++ apply Nat.ltb_lt in Hnext. rewrite !waits_app, waits_texts.
              change (Rag.waits [Rag.Wait 100]) with 1.
              replace (length texts - i - 1) with (1 * 10 + (length texts - (i + 10) - 1))
                by lia.
              rewrite Nat.div_add_l by lia. lia.
           ++ apply Nat.ltb_ge in Hnext. rewrite waits_app, waits_texts.
              rewrite (Nat.div_small (length texts - i - 1)) by lia.
              rewrite (Nat.div_small (length texts - (i + 10) - 1)) by lia. lia.
    + apply Nat.ltb_ge in Hi. exists calls. rewrite drop_ge by lia. cbn.
      rewrite !app_nil_r. replace (length texts - i - 1) with 0 by lia. cbn. auto.
Qed.

(** The loop when the text at position [k] is the first to be refused. *)
Lemma embedLoop_fail (fuel : nat) (k : nat) (t : string) (err : JsError) :
  texts !! k = Some t -> embed k t = inl err ->
  (forall j u, j < k -> texts !! j = Some u -> embed j u = inr (val j u)) ->
  forall (i : nat) (embeddings : list E) (calls : list Rag.call),
    length embeddings = i -> i <= k ->
    length texts <= i + fuel ->
    exists out,
      Rag.embedLoop fuel embed texts i embeddings calls = (inl err, out) /\
      Rag.embedded out
      = (Rag.embedded calls ++ map Rag.EmbedContent (firstn (S k - i) (skipn i texts)))%list /\
      Rag.waits out = Rag.waits calls + (k - i) / 10.
Proof.
  intros Hk Hbad Hok.
  assert (Hkn : k < length texts) by (apply lookup_lt_Some in Hk; exact Hk).
  induction fuel as [|fuel IH]; intros i embeddings calls Hlen Hik Hfuel; [lia|].
  cbn [Rag.embedLoop].
  assert (Hi : (i <? length texts)%nat = true) by (apply Nat.ltb_lt; lia).
  rewrite Hi. cbv zeta. set (batch := firstn 10 (skipn i texts)).
  destruct (decide (k < i + 10)) as [Hin|Hout].
  - assert (Hbk : batch !! (k - i) = Some t).
    { unfold batch. apply lookup_take_Some. split; [|lia].
      rewrite lookup_drop. now replace (i + (k - i)) with k by lia. }
    rewrite (embedBatch_fail batch (k - i) embeddings calls t err Hbk).
    + eexists. split; [reflexivity|]. split.
      * rewrite embedded_app, embedded_texts. f_equal. f_equal. unfold batch.
        rewrite take_take. f_equal. lia.
      * rewrite waits_app, waits_texts, Nat.div_small by lia. lia.
    + rewrite Hlen. now replace (i + (k - i)) with k by lia.
    + intros j u Hj Hu. rewrite Hlen. apply Hok; [lia|]. now apply batch_lookup.
  - rewrite embedBatch_ok.
    2:{ intros j u Hj. rewrite Hlen. apply Hok.
        - apply lookup_lt_Some in Hj. unfold batch in Hj. rewrite batch_length in Hj. lia.
        - now apply batch_lookup. }
    assert (Hnext : (i + 10 <? length texts)%nat = true) by (apply Nat.ltb_lt; lia).
    rewrite Hnext.
    destruct (IH (i + 10)
                (embeddings ++ imap (fun j u => val (length embeddings + j) u) batch)%list
                ((calls ++ map Rag.EmbedContent batch) ++ [Rag.Wait 100])%list)
      as (out & Hrun & Hemb & Hwait).
    + rewrite length_app, length_imap. unfold batch. rewrite batch_length. lia.
    + lia.
    + lia.
    + exists out. split; [exact Hrun|]. split.
      * rewrite Hemb, !embedded_app, embedded_texts. cbn [Rag.embedded List.filter Rag.isEmbed].
        rewrite app_nil_r, <- app_assoc, <- map_app. f_equal. f_equal.
        unfold batch. rewrite <- drop_drop.
        replace (S k - i) with (10 + (S k - (i + 10))) by lia.
        rewrite <- take_take_drop. reflexivity.
      * rewrite Hwait, !waits_app, waits_texts.
        change (Rag.waits [Rag.Wait 100]) with 1.
        replace (k - i) with (1 * 10 + (k - (i + 10))) by lia.
        rewrite Nat.div_add_l by lia. lia.
Qed.

End Embeddings.

(** X22: when every text is embedded, [generateEmbeddings] returns one
    embedding per text, in the order of the texts, having called
    [embedContent] once per text in that order, with a delay of 100 ms
    after each batch of ten texts except the last: for [n] texts it waits
    [(n - 1) / 10] times (not at all for no text). *)
Theorem generateEmbeddings_in_batches {E : Type} (embed : nat -> string -> JsError + E)
    (val : nat -> string -> E) (texts : list string) :
  (forall k t, texts !! k = Some t -> embed k t = inr (val k t)) ->
  let r := Rag.generateEmbeddings embed texts in
  fst r = inr (imap val texts) /\
  Rag.embedded (snd r) = map Rag.EmbedContent texts /\
  Rag.waits (snd r) = (length texts - 1) / 10 /\
  (forall ms, In (Rag.Wait ms) (snd r) -> ms = 100%Z).
Proof.
  intros Hok. cbv zeta. unfold Rag.generateEmbeddings.
  destruct (embedLoop_ok embed val texts (length texts) Hok 0 [] [])
    as (out & Hrun & Hemb & Hwait); [intros _; reflexivity | lia |].
  rewrite Hrun. cbn [fst snd]. cbn in Hemb, Hwait. rewrite Nat.sub_0_r in Hwait.
  split; [reflexivity|]. split; [exact Hemb|]. split; [exact Hwait|].
  clear Hemb Hwait.
  assert (Hgen : forall fuel i embeddings calls res out',
             Rag.embedLoop fuel embed texts i embeddings calls = (res, out') ->
             (forall ms, In (Rag.Wait ms) calls -> ms = 100%Z) ->
             forall ms, In (Rag.Wait ms) out' -> ms = 100%Z).
  { assert (Hbatch : forall batch embeddings calls res out',
               Rag.embedBatch embed batch embeddings calls = (res, out') ->
               (forall ms, In (Rag.Wait ms) calls -> ms = 100%Z) ->
               forall ms, In (Rag.Wait ms) out' -> ms = 100%Z).
    { induction batch as [|t rest IHb]; intros embeddings calls res out' Hb Hc ms Hin.
      - cbn in Hb. inversion Hb. subst. now apply Hc.
      - cbn [Rag.embedBatch] in Hb. destruct (embed (length embeddings) t).
        + inversion Hb. subst. apply in_app_or in Hin. destruct Hin as [Hin|Hin];
            [now apply Hc | cbn in Hin; destruct Hin as [Hin|[]]; discriminate].
        + apply (IHb _ _ _ _ Hb); [|exact Hin].
          intros ms' Hin'. apply in_app_or in Hin'. destruct Hin' as [Hin'|Hin'];
            [now apply Hc | cbn in Hin'; destruct Hin' as [Hin'|[]]; discriminate]. }
    induction fuel as [|fuel IHf]; intros i embeddings calls res out' Hl Hc ms Hin.
    - cbn in Hl. inversion Hl. subst. now apply Hc.
    - cbn [Rag.embedLoop] in Hl. destruct (i <? length texts)%nat.
      + cbv zeta in Hl.
        destruct (Rag.embedBatch embed (firstn 10 (skipn i texts)) embeddings calls)
          as [[err|embeddings'] calls'] eqn:Hb.
        * inversion Hl. subst. exact (Hbatch _ _ _ _ _ Hb Hc ms Hin).
        * apply (IHf _ _ _ _ _ Hl); [|exact Hin].
          intros ms' Hin'. destruct (i + 10 <? length texts)%nat.
          -- apply in_app_or in Hin'. destruct Hin' as [Hin'|Hin'].
             ++ exact (Hbatch _ _ _ _ _ Hb Hc ms' Hin').
             ++ cbn in Hin'. destruct Hin' as [Hin'|[]]. now inversion Hin'.
          -- exact (Hbatch _ _ _ _ _ Hb Hc ms' Hin').
      + inversion Hl. subst. now apply Hc. }
  intros ms Hin. apply (Hgen _ _ _ _ _ _ Hrun); [|exact Hin]. intros ms' [].
Qed.

(** Twenty-one texts: three batches, two delays. *)
Lemma generateEmbeddings_in_batches_witness :
  let r := Rag.generateEmbeddings (fun k _ => inr k) (repeat "text" 21) in
  fst r = inr (imap (fun k _ => k) (repeat "text" 21)) /\
  Rag.embedded (snd r) = map Rag.EmbedContent (repeat "text" 21) /\
  Rag.waits (snd r) = (length (repeat "text" 21) - 1) / 10 /\
  (forall ms, In (Rag.Wait ms) (snd r) -> ms = 100%Z).
Proof.
  apply (generateEmbeddings_in_batches (fun k _ => inr k) (fun k _ => k)
           (repeat "text" 21)).
  intros k t _. reflexivity.
Defined.

(** X23: when the text at position [k] is the first one the embedding
    model refuses, [generateEmbeddings] fails with that error; it has
    called [embedContent] for the texts up to position [k] and for no
    later one, and has waited [k / 10] times. *)
Theorem generateEmbeddings_first_failure {E : Type} (embed : nat -> string -> JsError + E)
    (val : nat -> string -> E) (texts : list string) (k : nat) (t : string)
    (err : JsError) :
  texts !! k = Some t -> embed k t = inl err ->
  (forall j u, j < k -> texts !! j = Some u -> embed j u = inr (val j u)) ->
  let r := Rag.generateEmbeddings embed texts in
  fst r = inl err /\
  Rag.embedded (snd r) = map Rag.EmbedContent (firstn (S k) texts) /\
  Rag.waits (snd r) = k / 10.
Proof.
  intros Hk Hbad Hok. cbv zeta. unfold Rag.generateEmbeddings.
  destruct (embedLoop_fail embed val texts (length texts) k t err Hk Hbad Hok 0 [] [])
    as (out & Hrun & Hemb & Hwait); [reflexivity | lia | lia |].
  rewrite Hrun. cbn [fst snd]. cbn in Hemb, Hwait. rewrite Nat.sub_0_r in Hwait.
  auto.
Qed.

(** Twenty-five texts of which the thirteenth is refused. *)
Lemma generateEmbeddings_first_failure_witness :
  let embed := fun (k : nat) (_ : string) =>
                 if Nat.eqb k 12 then inl Sample.down else inr k in
  let r := Rag.generateEmbeddings embed (repeat "text" 25) in
  fst r = inl Sample.down /\
  Rag.embedded (snd r) = map Rag.EmbedContent (firstn 13 (repeat "text" 25)) /\
  Rag.waits (snd r) = 12 / 10.
Proof.
  apply (generateEmbeddings_first_failure
           (fun (k : nat) (_ : string) => if Nat.eqb k 12 then inl Sample.down else inr k)
           (fun k _ => k) (repeat "text" 25) 12 "text" Sample.down).
  - reflexivity.
  - reflexivity.
  - intros j u Hj _. destruct (Nat.eqb_spec j 12); [lia | reflexivity].
Defined.
